(** * rogue/pkg/ast: the syntax tree and its JSON codec

    A shallow embedding of [pkg/ast/ast.go] and [pkg/ast/ast_json.go]:
    the eleven expression variants, the encoder ([JSON] methods), and the
    decoder ([New...FromJSON] functions), together with the parts of
    [strconv], of json-iterator's [Any] accessors and of its string
    writer (with [unicode/utf8]) that the codec calls. *)

From Stdlib Require Import ZArith List String Ascii Bool Lia.
Import ListNotations.

Set Warnings "-register-all".

Open Scope string_scope.
Open Scope Z_scope.

(** ** Outcomes of a Go call

    A Go function of type [(T, error)] returns a value with a nil error,
    or a non-nil error; a call can also panic.  [ErrInvalidJSON] is the
    package's sentinel error; [NumError] is [*strconv.NumError]. *)

Inductive NumErrKind : Type := ErrSyntax | ErrRange.

Inductive error : Type :=
| ErrInvalidJSON
| NumError (Func Num : string) (Err : NumErrKind).

Inductive result (A : Type) : Type :=
| OK (a : A)
| Fail (err : error)
| Panic (msg : string).

Arguments OK {A} a.
Arguments Fail {A} err.
Arguments Panic {A} msg.

Definition bind {A B : Type} (c : result A) (k : A -> result B) : result B :=
  match c with
  | OK a => k a
  | Fail e => Fail e
  | Panic m => Panic m
  end.

Notation "x <- c ;; k" := (bind c (fun x => k))
  (at level 61, c at next level, right associativity).

(** [for i, x := range xs { y, err := f(x); if err != nil { return nil, err }; ys[i] = y }] *)
Fixpoint forEach {A B : Type} (f : A -> result B) (xs : list A) : result (list B) :=
  match xs with
  | [] => OK []
  | x :: rest =>
      y <- f x ;;
      ys <- forEach f rest ;;
      OK (y :: ys)
  end.

(** ** strconv (base 10 only, as the codec calls it) *)

Module strconv.

Definition isDigit (c : ascii) : bool :=
  let n := Z.of_nat (nat_of_ascii c) in (48 <=? n) && (n <=? 57).

Definition digitVal (c : ascii) : Z := Z.of_nat (nat_of_ascii c) - 48.

Definition digitChar (d : Z) : ascii := ascii_of_nat (Z.to_nat (48 + d)).

Definition maxUint64 : Z := 2 ^ 64 - 1.

(** uint64 arithmetic wraps around. *)
Definition wrap64 (z : Z) : Z := z mod 2 ^ 64.

Definition syntaxError (fn str : string) : error := NumError fn str ErrSyntax.
Definition rangeError (fn str : string) : error := NumError fn str ErrRange.

(** The digit loop of [ParseUint]; [s0] is the whole argument (for the
    error), [n] the value accumulated so far. *)
Fixpoint parseUintLoop (s0 : string) (maxVal : Z) (s : string) (n : Z)
  : Z * option error :=
  match s with
  | EmptyString => (n, None)
  | String c rest =>
      if negb (isDigit c) then (0, Some (syntaxError "ParseUint" s0))
      else
        let d := digitVal c in
        if maxUint64 / 10 + 1 <=? n then (maxVal, Some (rangeError "ParseUint" s0))
        else
          let n' := wrap64 (n * 10) in
          let n1 := wrap64 (n' + d) in
          if (n1 <? n') || (maxVal <? n1)
          then (maxVal, Some (rangeError "ParseUint" s0))
          else parseUintLoop s0 maxVal rest n1
  end.

(** [strconv.ParseUint(s, 10, bitSize)] for [0 < bitSize <= 64]: the
    value and the error, both returned as Go does. *)
Definition ParseUint (s : string) (bitSize : Z) : Z * option error :=
  match s with
  | EmptyString => (0, Some (syntaxError "ParseUint" s))
  | _ => parseUintLoop s (2 ^ bitSize - 1) s 0
  end.

(** [strconv.ParseInt(s, 10, bitSize)]: the sign is picked off, the
    rest goes to [ParseUint], whose syntax error is renamed and whose
    range error is replaced by the range check on the signed value.
    ([ParseUint] returns no error but a [*NumError]; the second branch
    only makes the match total.) *)
Definition ParseInt (s : string) (bitSize : Z) : Z * option error :=
  match s with
  | EmptyString => (0, Some (syntaxError "ParseInt" s))
  | String c rest =>
      let neg := Ascii.eqb c "-" in
      let s' := if Ascii.eqb c "+" then rest else if neg then rest else s in
      let '(un, err) := ParseUint s' bitSize in
      match err with
      | Some (NumError _ _ ErrSyntax) => (0, Some (syntaxError "ParseInt" s))
      | Some ErrInvalidJSON => (0, err)
      | _ =>
          let cutoff := 2 ^ (bitSize - 1) in
          if negb neg && (cutoff <=? un) then (cutoff - 1, Some (rangeError "ParseInt" s))
          else if neg && (cutoff <? un) then (- cutoff, Some (rangeError "ParseInt" s))
          else (if neg then - un else un, None)
      end
  end.

(** The digits of [u], most significant first, written in front of
    [acc]; [fuel] bounds the number of digits. *)
Fixpoint formatBits (fuel : nat) (u : Z) (acc : string) : string :=
  match fuel with
  | O => acc
  | S k =>
      let acc' := String (digitChar (u mod 10)) acc in
      if u / 10 =? 0 then acc' else formatBits k (u / 10) acc'
  end.

(** [strconv.FormatInt(i, 10)] for an int64 [i]. *)
Definition FormatInt (i : Z) : string :=
  if i <? 0 then String "-" (formatBits 20 (- i) "") else formatBits 20 i "".

(** Binary64 values and their decimal text are not computed here: the
    type and the two conversions the codec calls are taken as given.
    [FormatFloat f] is [strconv.FormatFloat(f, 'f', -1, 64)] and
    [ParseFloat s] is [strconv.ParseFloat(s, 64)]. *)
Class Floats : Type := {
  float64 : Type;
  FormatFloat : float64 -> string;
  ParseFloat : string -> float64 * option error
}.

End strconv.

(** ** Decimal text, to state what the conversions accept *)

Module DecimalText.

Fixpoint allDigits (s : string) : bool :=
  match s with
  | EmptyString => true
  | String c rest => strconv.isDigit c && allDigits rest
  end.

(** The number that digits [s] denote when read after a prefix of
    value [n]. *)
Fixpoint digitsValue (s : string) (n : Z) : Z :=
  match s with
  | EmptyString => n
  | String c rest => digitsValue rest (n * 10 + strconv.digitVal c)
  end.

Definition digits (s : string) : bool :=
  match s with
  | EmptyString => false
  | _ => allDigits s
  end.

(** An optional sign followed by one digit or more. *)
Definition isDecimalText (s : string) : bool :=
  match s with
  | EmptyString => false
  | String c rest =>
      if Ascii.eqb c "+" then digits rest
      else if Ascii.eqb c "-" then digits rest
      else digits s
  end.

Definition decimalValue (s : string) : Z :=
  match s with
  | EmptyString => 0
  | String c rest =>
      if Ascii.eqb c "+" then digitsValue rest 0
      else if Ascii.eqb c "-" then - digitsValue rest 0
      else digitsValue s 0
  end.

Definition inInt32 (v : Z) : Prop := - 2 ^ 31 <= v < 2 ^ 31.

(** The unsigned text that [ParseInt] hands to [ParseUint], and the
    sign it has read. *)
Definition unsignedPart (s : string) : string :=
  match s with
  | EmptyString => EmptyString
  | String c rest =>
      if Ascii.eqb c "+" then rest else if Ascii.eqb c "-" then rest else s
  end.

Definition isNegative (s : string) : bool :=
  match s with
  | EmptyString => false
  | String c _ => Ascii.eqb c "-"
  end.

End DecimalText.

(** ** unicode/utf8, as json-iterator's string writer calls it *)

Module utf8.

Definition RuneError : Z := 0xFFFD.
Definition RuneSelf : Z := 0x80.

Definition byte (c : ascii) : Z := Z.of_nat (nat_of_ascii c).

(** The table [first] with its [acceptRanges]: for the first byte of a
    sequence of two bytes or more, the length of the sequence and the
    range of its second byte.  [None] for a byte that starts no such
    sequence (0x80..0xC1 and 0xF5..0xFF; ASCII is handled before). *)
Definition first (s0 : Z) : option (nat * (Z * Z)) :=
  if s0 <? 0xC2 then None
  else if s0 <=? 0xDF then Some (2%nat, (0x80, 0xBF))
  else if s0 =? 0xE0 then Some (3%nat, (0xA0, 0xBF))
  else if s0 =? 0xED then Some (3%nat, (0x80, 0x9F))
  else if s0 <=? 0xEF then Some (3%nat, (0x80, 0xBF))
  else if s0 =? 0xF0 then Some (4%nat, (0x90, 0xBF))
  else if s0 <=? 0xF3 then Some (4%nat, (0x80, 0xBF))
  else if s0 =? 0xF4 then Some (4%nat, (0x80, 0x8F))
  else None.

(** A continuation byte, [locb <= b <= hicb]. *)
Definition continues (b : Z) : bool := (0x80 <=? b) && (b <=? 0xBF).

(** [utf8.DecodeRuneInString(s)]: the first rune of [s] and its width
    in bytes; [(RuneError, 1)] when [s] starts with no valid encoding,
    [(RuneError, 0)] when it is empty. *)
Definition DecodeRuneInString (s : string) : Z * nat :=
  match s with
  | EmptyString => (RuneError, 0%nat)
  | String c0 rest0 =>
      let s0 := byte c0 in
      if s0 <? RuneSelf then (s0, 1%nat)
      else
        match first s0 with
        | None => (RuneError, 1%nat)
        | Some (sz, (lo, hi)) =>
            match rest0 with
            | EmptyString => (RuneError, 1%nat)
            | String c1 rest1 =>
                let s1 := byte c1 in
                if (s1 <? lo) || (hi <? s1) then (RuneError, 1%nat)
                else if (sz <=? 2)%nat then
                  (Z.lor (Z.shiftl (Z.land s0 0x1F) 6) (Z.land s1 0x3F), 2%nat)
                else
                  match rest1 with
                  | EmptyString => (RuneError, 1%nat)
                  | String c2 rest2 =>
                      let s2 := byte c2 in
                      if negb (continues s2) then (RuneError, 1%nat)
                      else if (sz <=? 3)%nat then
                        (Z.lor (Z.shiftl (Z.land s0 0x0F) 12)
                           (Z.lor (Z.shiftl (Z.land s1 0x3F) 6) (Z.land s2 0x3F)),
                         3%nat)
                      else
                        match rest2 with
                        | EmptyString => (RuneError, 1%nat)
                        | String c3 _ =>
                            let s3 := byte c3 in
                            if negb (continues s3) then (RuneError, 1%nat)
                            else
                              (Z.lor (Z.shiftl (Z.land s0 0x07) 18)
                                 (Z.lor (Z.shiftl (Z.land s1 0x3F) 12)
                                    (Z.lor (Z.shiftl (Z.land s2 0x3F) 6)
                                       (Z.land s3 0x3F))),
                               4%nat)
                        end
                  end
            end
        end
  end.

(** [s] starts with a byte that begins no valid encoding. *)
Definition invalidAt (s : string) : bool :=
  let '(c, size) := DecodeRuneInString s in (c =? RuneError) && (size =? 1)%nat.

(** [utf8.ValidString(s)], rune by rune; [inRune] counts the bytes
    that remain of a rune already decoded. *)
Fixpoint validFrom (inRune : nat) (s : string) : bool :=
  match s with
  | EmptyString => true
  | String _ rest =>
      match inRune with
      | S k => validFrom k rest
      | O =>
          if invalidAt s then false
          else validFrom (snd (DecodeRuneInString s) - 1)%nat rest
      end
  end.

Definition ValidString (s : string) : bool := validFrom 0 s.

End utf8.

(** ** Values held in a [map[string]interface{}]

    What the [JSON] methods build: ints (the tags), bools, strings,
    nested maps and slices of maps.  A map literal is kept as the list
    of its entries in source order; its keys are distinct. *)

Inductive GoValue : Type :=
| VInt (n : Z)
| VBool (b : bool)
| VString (s : string)
| VMap (entries : list (string * GoValue))
| VSlice (elems : list GoValue).

(** ** json-iterator: the [Any] view of a parsed document

    The decoder reads its input through [jsoniter.Any], and only
    through [Get], [ToUint], [ToBool], [ToString] and [ToVal].  The
    library is a dependency of the package; what follows is the
    behaviour of its implementations of [Any] for a document read by
    [jsoniter.Get(bytes)] (any_invalid.go, any_nil.go, any_bool.go,
    any_number.go, any_str.go, any_array.go, any_object.go, and
    [baseAny] in any.go), on a 64-bit platform.

    The model keeps the parsed shape: scalars, a number with the text
    of its literal (numbers are read from that text on demand), arrays
    with their elements and objects with their fields in document
    order.  [invalidAny] is what [Get] returns for a path that does not
    exist. *)

Module jsoniter.

Inductive Any : Type :=
| invalidAny
| nilAny
| trueAny
| falseAny
| numberLazyAny (buf : string)
| stringAny (val : string)
| arrayLazyAny (elems : list Any)
| objectLazyAny (fields : list (string * Any)).

(** [locateObjectField]: the value of the first field named [target]. *)
Fixpoint locateObjectField (fields : list (string * Any)) (target : string)
  : option Any :=
  match fields with
  | [] => None
  | (field, value) :: rest =>
      if String.eqb field target then Some value
      else locateObjectField rest target
  end.

(** [any.Get(key)] with one string key: only an object has fields. *)
Definition Get (any : Any) (key : string) : Any :=
  match any with
  | objectLazyAny fields =>
      match locateObjectField fields key with
      | Some value => value
      | None => invalidAny
      end
  | _ => invalidAny
  end.

(** [Iterator.ReadUint64] on the text of a number literal: a leading
    zero or a byte that is no digit (such as a sign) reads as 0, digits
    accumulate until the first other byte, and a detected overflow
    reads as 0. *)
Fixpoint readUint64Loop (s : string) (value : Z) : Z :=
  match s with
  | EmptyString => value
  | String c rest =>
      if negb (strconv.isDigit c) then value
      else
        let ind := strconv.digitVal c in
        if strconv.maxUint64 / 10 - 1 <? value then
          let value2 := strconv.wrap64 (value * 10 + ind) in
          if value2 <? value then 0 else readUint64Loop rest value2
        else readUint64Loop rest (value * 10 + ind)
  end.

Definition readUint64 (buf : string) : Z :=
  match buf with
  | EmptyString => 0
  | String c rest =>
      if negb (strconv.isDigit c) then 0
      else if strconv.digitVal c =? 0 then 0
      else readUint64Loop rest (strconv.digitVal c)
  end.

(** The longest prefix of digits. *)
Fixpoint digitPrefix (s : string) : string :=
  match s with
  | EmptyString => EmptyString
  | String c rest =>
      if strconv.isDigit c then String c (digitPrefix rest) else EmptyString
  end.

(** [stringAny.ToUint64]: an optional sign, then the leading digits;
    the parse error is dropped. *)
Definition stringToUint64 (val : string) : Z :=
  match val with
  | EmptyString => 0
  | String c rest =>
      if Ascii.eqb c "-" then 0
      else
        let digits := if Ascii.eqb c "+" then digitPrefix rest else digitPrefix val in
        fst (strconv.ParseUint digits 64)
  end.

Definition isBlank (c : ascii) : bool :=
  Ascii.eqb c " " || Ascii.eqb c "010" || Ascii.eqb c "013" || Ascii.eqb c "009".

Fixpoint allBlank (s : string) : bool :=
  match s with
  | EmptyString => true
  | String c rest => isBlank c && allBlank rest
  end.

(** What the accessors take from outside the parsed shape. *)
Class Document : Type := {
  (** the bytes of an array or object in the document, which the lazy
      values return from [ToString] *)
  sourceText : Any -> string;
  (** [ToFloat64() != 0] on the text of a number literal *)
  numberNonZero : string -> bool
}.

Section Accessors.
Context {D : Document}.

(** [any.ToUint()]: 0 for an invalid value, null, false and an object;
    1 for true and for an array that is not empty; a number is read
    from its literal and a string from its leading digits. *)
Definition ToUint (any : Any) : Z :=
  match any with
  | invalidAny => 0
  | nilAny => 0
  | trueAny => 1
  | falseAny => 0
  | numberLazyAny buf => readUint64 buf
  | stringAny val => stringToUint64 val
  | arrayLazyAny elems => match elems with [] => 0 | _ :: _ => 1 end
  | objectLazyAny _ => 0
  end.

(** [any.ToBool()]: false for an invalid value and null; a string is
    true unless it is "0" or blank; an array unless it is empty; an
    object always. *)
Definition ToBool (any : Any) : bool :=
  match any with
  | invalidAny => false
  | nilAny => false
  | trueAny => true
  | falseAny => false
  | numberLazyAny buf => numberNonZero buf
  | stringAny val => if String.eqb val "0" then false else negb (allBlank val)
  | arrayLazyAny elems => match elems with [] => false | _ :: _ => true end
  | objectLazyAny _ => true
  end.

(** [any.ToString()]: the empty string for an invalid value and null;
    a number, an array and an object give their text in the document. *)
Definition ToString (any : Any) : string :=
  match any with
  | invalidAny => ""
  | nilAny => ""
  | trueAny => "true"
  | falseAny => "false"
  | numberLazyAny buf => buf
  | stringAny val => val
  | arrayLazyAny _ => sourceText any
  | objectLazyAny _ => sourceText any
  end.

(** [var xs []jsoniter.Any; any.ToVal(&xs)].  Only the lazy array and
    object implement [ToVal], by decoding their text into [xs]: an
    array gives its elements; on an object the slice decoder reports an
    error on its iterator, which is dropped, and leaves [xs] nil.
    Every other value, the invalid one included, inherits
    [baseAny.ToVal], which is [panic("not implemented")]: [None]. *)
Definition ToVal (any : Any) : option (list Any) :=
  match any with
  | arrayLazyAny elems => Some elems
  | objectLazyAny _ => Some []
  | _ => None
  end.

End Accessors.

(** A string written by [Stream.WriteStringWithHTMLEscaped] (the string
    encoder of [ConfigDefault]) and read back by [Iterator.ReadString].
    The writer walks the string rune by rune: it copies a valid
    encoding, writes an escape for some ASCII bytes and for U+2028 and
    U+2029, and writes [\ufffd] for a byte at which
    [utf8.DecodeRuneInString] returns [(RuneError, 1)].  The reader
    undoes the escapes.  So the bytes come back as they were, except
    that each byte that begins no valid encoding comes back as the three
    bytes of U+FFFD.  [inRune] counts the bytes that remain of a rune
    already decoded. *)
Fixpoint writeReadString (inRune : nat) (s : string) : string :=
  match s with
  | EmptyString => EmptyString
  | String b rest =>
      match inRune with
      | S k => String b (writeReadString k rest)
      | O =>
          if utf8.invalidAt s
          then String "239" (String "191" (String "189" (writeReadString 0 rest)))
          else String b (writeReadString (snd (utf8.DecodeRuneInString s) - 1)%nat rest)
      end
  end.

(** [jsoniter.Get(b)] for [b, _ := jsoniter.Marshal(v)], as the tests
    feed the encoder's output to the decoder: an int is written as its
    decimal literal, a string is written and read back by
    [writeReadString], and a map's entries become the object's
    fields. *)
Fixpoint MarshalGet (v : GoValue) : Any :=
  match v with
  | VInt n => numberLazyAny (strconv.FormatInt n)
  | VBool b => if b then trueAny else falseAny
  | VString s => stringAny (writeReadString 0 s)
  | VMap entries => objectLazyAny (map (fun kv => (fst kv, MarshalGet (snd kv))) entries)
  | VSlice elems => arrayLazyAny (map MarshalGet elems)
  end.

(** Nesting depth, which bounds the decoder's recursion. *)
Fixpoint depth (any : Any) : nat :=
  match any with
  | arrayLazyAny elems => S (list_max (map depth elems))
  | objectLazyAny fields => S (list_max (map (fun kv => depth (snd kv)) fields))
  | _ => O
  end.

End jsoniter.

(** ** Package ast *)

Module ast.
Import jsoniter.
Export strconv(float64).

(** *** ast.go: tags and nodes *)

Definition TypeModule : Z := 1.
Definition TypeNil : Z := 2.
Definition TypeBoolean : Z := 3.
Definition TypeInt32 : Z := 4.
Definition TypeFloat64 : Z := 5.
Definition TypeString : Z := 6.
Definition TypeID : Z := 7.
Definition TypeDefinition : Z := 8.
Definition TypeLambda : Z := 9.
Definition TypeCall : Z := 10.
Definition TypeAnonymousCall : Z := 11.

(** The struct types.  The leaves stand alone; the composite nodes and
    the [Expression] interface (a sum of the eleven implementations)
    refer to one another.  [Int32.Value] is an int32, kept as an integer
    that callers bound by [-2^31 <= v < 2^31]. *)

Inductive Nil : Type := mkNil.
Inductive Boolean : Type := mkBoolean (Value : bool).
Inductive Int32 : Type := mkInt32 (Value : Z).
Inductive Float64 {F : strconv.Floats} : Type := mkFloat64 (Value : float64).
Inductive String_ : Type := mkString (Value : string).
Inductive ID : Type := mkID (Value : string).

Section Nodes.
Context {F : strconv.Floats}.

Inductive Expression : Type :=
| EModule (m : Module_)
| ENil (n : Nil)
| EBoolean (b : Boolean)
| EInt32 (i : Int32)
| EFloat64 (f : Float64)
| EString (s : String_)
| EID (i : ID)
| EDefinition (d : Definition_)
| ELambda (l : Lambda)
| ECall (c : Call)
| EAnonymousCall (c : AnonymousCall)
with Module_ : Type :=
| mkModule (Name : string) (Definitions : list Definition_)
with Definition_ : Type :=
| mkDefinition (ID_ : ID) (Expression_ : Expression)
with Lambda : Type :=
| mkLambda (Parameters : list ID) (Expression_ : Expression)
with Call : Type :=
| mkCall (ID_ : ID) (Arguments : list Expression)
with AnonymousCall : Type :=
| mkAnonymousCall (Lambda_ : Lambda) (Arguments : list Expression).

(** [Type()] of each implementation. *)
Definition Type_ (e : Expression) : Z :=
  match e with
  | EModule _ => TypeModule
  | ENil _ => TypeNil
  | EBoolean _ => TypeBoolean
  | EInt32 _ => TypeInt32
  | EFloat64 _ => TypeFloat64
  | EString _ => TypeString
  | EID _ => TypeID
  | EDefinition _ => TypeDefinition
  | ELambda _ => TypeLambda
  | ECall _ => TypeCall
  | EAnonymousCall _ => TypeAnonymousCall
  end.

End Nodes.

(** Induction over the six node types at once, with the lists of
    children covered by [Forall]. *)
Section Induction.
Context {F : strconv.Floats}.
Variables (PE : Expression -> Prop) (PM : Module_ -> Prop)
  (PD : Definition_ -> Prop) (PL : Lambda -> Prop) (PC : Call -> Prop)
  (PA : AnonymousCall -> Prop).
Hypothesis HModule : forall m, PM m -> PE (EModule m).
Hypothesis HNil : forall n, PE (ENil n).
Hypothesis HBoolean : forall b, PE (EBoolean b).
Hypothesis HInt32 : forall i, PE (EInt32 i).
Hypothesis HFloat64 : forall f, PE (EFloat64 f).
Hypothesis HString : forall s, PE (EString s).
Hypothesis HID : forall i, PE (EID i).
Hypothesis HDefinition : forall d, PD d -> PE (EDefinition d).
Hypothesis HLambda : forall l, PL l -> PE (ELambda l).
Hypothesis HCall : forall c, PC c -> PE (ECall c).
Hypothesis HAnonymousCall : forall c, PA c -> PE (EAnonymousCall c).
Hypothesis HmkModule : forall name ds, Forall PD ds -> PM (mkModule name ds).
Hypothesis HmkDefinition : forall i e, PE e -> PD (mkDefinition i e).
Hypothesis HmkLambda : forall ps e, PE e -> PL (mkLambda ps e).
Hypothesis HmkCall : forall i args, Forall PE args -> PC (mkCall i args).
Hypothesis HmkAnonymousCall :
  forall l args, PL l -> Forall PE args -> PA (mkAnonymousCall l args).

Fixpoint Expression_nodes_ind (e : Expression) : PE e :=
  match e with
  | EModule m => HModule m (Module_nodes_ind m)
  | ENil n => HNil n
  | EBoolean b => HBoolean b
  | EInt32 i => HInt32 i
  | EFloat64 f => HFloat64 f
  | EString s => HString s
  | EID i => HID i
  | EDefinition d => HDefinition d (Definition_nodes_ind d)
  | ELambda l => HLambda l (Lambda_nodes_ind l)
  | ECall c => HCall c (Call_nodes_ind c)
  | EAnonymousCall c => HAnonymousCall c (AnonymousCall_nodes_ind c)
  end
with Module_nodes_ind (m : Module_) : PM m :=
  match m with
  | mkModule name ds =>
      HmkModule name ds
        ((fix each (l : list Definition_) : Forall PD l :=
            match l with
            | [] => Forall_nil PD
            | d :: rest => Forall_cons d (Definition_nodes_ind d) (each rest)
            end) ds)
  end
with Definition_nodes_ind (d : Definition_) : PD d :=
  match d with
  | mkDefinition i e => HmkDefinition i e (Expression_nodes_ind e)
  end
with Lambda_nodes_ind (l : Lambda) : PL l :=
  match l with
  | mkLambda ps e => HmkLambda ps e (Expression_nodes_ind e)
  end
with Call_nodes_ind (c : Call) : PC c :=
  match c with
  | mkCall i args =>
      HmkCall i args
        ((fix each (l : list Expression) : Forall PE l :=
            match l with
            | [] => Forall_nil PE
            | a :: rest => Forall_cons a (Expression_nodes_ind a) (each rest)
            end) args)
  end
with AnonymousCall_nodes_ind (c : AnonymousCall) : PA c :=
  match c with
  | mkAnonymousCall l args =>
      HmkAnonymousCall l args (Lambda_nodes_ind l)
        ((fix each (l : list Expression) : Forall PE l :=
            match l with
            | [] => Forall_nil PE
            | a :: rest => Forall_cons a (Expression_nodes_ind a) (each rest)
            end) args)
  end.

End Induction.

(** *** ast_json.go: the encoder *)

Definition Nil_JSON (n : Nil) : list (string * GoValue) :=
  [("type", VInt TypeNil)].

Definition Boolean_JSON (b : Boolean) : list (string * GoValue) :=
  match b with
  | mkBoolean Value => [("type", VInt TypeBoolean); ("value", VBool Value)]
  end.

Definition Int32_JSON (i : Int32) : list (string * GoValue) :=
  match i with
  | mkInt32 Value =>
      [("type", VInt TypeInt32); ("value", VString (strconv.FormatInt Value))]
  end.

Definition Float64_JSON {F : strconv.Floats} (f : Float64) : list (string * GoValue) :=
  match f with
  | mkFloat64 Value =>
      [("type", VInt TypeFloat64); ("value", VString (strconv.FormatFloat Value))]
  end.

Definition String_JSON (s : String_) : list (string * GoValue) :=
  match s with
  | mkString Value => [("type", VInt TypeString); ("value", VString Value)]
  end.

Definition ID_JSON (i : ID) : list (string * GoValue) :=
  match i with
  | mkID Value => [("type", VInt TypeID); ("value", VString Value)]
  end.

Section Encoder.
Context {F : strconv.Floats}.

(** The [JSON] method of the interface dispatches on the dynamic type;
    the composite nodes encode their children through it. *)
Fixpoint Expression_JSON (e : Expression) : list (string * GoValue) :=
  match e with
  | EModule m => Module_JSON m
  | ENil n => Nil_JSON n
  | EBoolean b => Boolean_JSON b
  | EInt32 i => Int32_JSON i
  | EFloat64 f => Float64_JSON f
  | EString s => String_JSON s
  | EID i => ID_JSON i
  | EDefinition d => Definition_JSON d
  | ELambda l => Lambda_JSON l
  | ECall c => Call_JSON c
  | EAnonymousCall c => AnonymousCall_JSON c
  end
with Module_JSON (m : Module_) : list (string * GoValue) :=
  match m with
  | mkModule Name Definitions =>
      let definitions := map (fun d => VMap (Definition_JSON d)) Definitions in
      [("type", VInt TypeModule); ("definitions", VSlice definitions)]
  end
with Definition_JSON (d : Definition_) : list (string * GoValue) :=
  match d with
  | mkDefinition ID_ Expression_ =>
      [("type", VInt TypeDefinition);
       ("id", VMap (ID_JSON ID_));
       ("expression", VMap (Expression_JSON Expression_))]
  end
with Lambda_JSON (l : Lambda) : list (string * GoValue) :=
  match l with
  | mkLambda Parameters Expression_ =>
      let parameters := map (fun p => VMap (ID_JSON p)) Parameters in
      [("type", VInt TypeLambda);
       ("parameters", VSlice parameters);
       ("expression", VMap (Expression_JSON Expression_))]
  end
with Call_JSON (c : Call) : list (string * GoValue) :=
  match c with
  | mkCall ID_ Arguments =>
      let arguments := map (fun a => VMap (Expression_JSON a)) Arguments in
      [("type", VInt TypeCall);
       ("id", VMap (ID_JSON ID_));
       ("arguments", VSlice arguments)]
  end
with AnonymousCall_JSON (c : AnonymousCall) : list (string * GoValue) :=
  match c with
  | mkAnonymousCall Lambda_ Arguments =>
      let arguments := map (fun a => VMap (Expression_JSON a)) Arguments in
      [("type", VInt TypeAnonymousCall);
       ("lambda", VMap (Lambda_JSON Lambda_));
       ("arguments", VSlice arguments)]
  end.

End Encoder.

(** *** What a round trip can be asked to preserve *)

(** [P] holds of every element of [xs]. *)
Definition allOf {A : Type} (P : A -> Prop) (xs : list A) : Prop :=
  fold_right (fun x rest => P x /\ rest) True xs.

Section Trees.
Context {F : strconv.Floats}.

(** Every [Int32] in the tree holds an int32, and every [Float64] holds
    a value whose text [ParseFloat] reads back as that value. *)
Fixpoint wellFormed (e : Expression) : Prop :=
  match e with
  | EModule m => wellFormedModule m
  | EInt32 (mkInt32 Value) => DecimalText.inInt32 Value
  | EFloat64 (mkFloat64 Value) =>
      strconv.ParseFloat (strconv.FormatFloat Value) = (Value, None)
  | EDefinition d => wellFormedDefinition d
  | ELambda l => wellFormedLambda l
  | ECall c => wellFormedCall c
  | EAnonymousCall c => wellFormedAnonymousCall c
  | _ => True
  end
with wellFormedModule (m : Module_) : Prop :=
  match m with
  | mkModule _ Definitions => allOf wellFormedDefinition Definitions
  end
with wellFormedDefinition (d : Definition_) : Prop :=
  match d with
  | mkDefinition _ Expression_ => wellFormed Expression_
  end
with wellFormedLambda (l : Lambda) : Prop :=
  match l with
  | mkLambda _ Expression_ => wellFormed Expression_
  end
with wellFormedCall (c : Call) : Prop :=
  match c with
  | mkCall _ Arguments => allOf wellFormed Arguments
  end
with wellFormedAnonymousCall (c : AnonymousCall) : Prop :=
  match c with
  | mkAnonymousCall Lambda_ Arguments =>
      wellFormedLambda Lambda_ /\ allOf wellFormed Arguments
  end.

(** The same tree with the name of every [Module] emptied. *)
Fixpoint withoutModuleNames (e : Expression) : Expression :=
  match e with
  | EModule m => EModule (withoutModuleNamesModule m)
  | EDefinition d => EDefinition (withoutModuleNamesDefinition d)
  | ELambda l => ELambda (withoutModuleNamesLambda l)
  | ECall c => ECall (withoutModuleNamesCall c)
  | EAnonymousCall c => EAnonymousCall (withoutModuleNamesAnonymousCall c)
  | _ => e
  end
with withoutModuleNamesModule (m : Module_) : Module_ :=
  match m with
  | mkModule _ Definitions =>
      mkModule "" (map withoutModuleNamesDefinition Definitions)
  end
with withoutModuleNamesDefinition (d : Definition_) : Definition_ :=
  match d with
  | mkDefinition ID_ Expression_ => mkDefinition ID_ (withoutModuleNames Expression_)
  end
with withoutModuleNamesLambda (l : Lambda) : Lambda :=
  match l with
  | mkLambda Parameters Expression_ =>
      mkLambda Parameters (withoutModuleNames Expression_)
  end
with withoutModuleNamesCall (c : Call) : Call :=
  match c with
  | mkCall ID_ Arguments => mkCall ID_ (map withoutModuleNames Arguments)
  end
with withoutModuleNamesAnonymousCall (c : AnonymousCall) : AnonymousCall :=
  match c with
  | mkAnonymousCall Lambda_ Arguments =>
      mkAnonymousCall (withoutModuleNamesLambda Lambda_)
        (map withoutModuleNames Arguments)
  end.

End Trees.

(** *** ast_json.go: the decoder *)

Section Leaves.
Context {F : strconv.Floats} {D : Document}.

Definition NewNilFromJSON (json : Any) : result Nil :=
  if negb (ToUint (Get json "type") =? TypeNil) then Fail ErrInvalidJSON
  else OK mkNil.

Definition NewBooleanFromJSON (json : Any) : result Boolean :=
  if negb (ToUint (Get json "type") =? TypeBoolean) then Fail ErrInvalidJSON
  else
    let value := ToBool (Get json "value") in
    OK (mkBoolean value).

Definition NewInt32FromJSON (json : Any) : result Int32 :=
  if negb (ToUint (Get json "type") =? TypeInt32) then Fail ErrInvalidJSON
  else
    match strconv.ParseInt (ToString (Get json "value")) 32 with
    | (_, Some err) => Fail err
    | (value, None) => OK (mkInt32 value)
    end.

Definition NewFloat64FromJSON (json : Any) : result Float64 :=
  if negb (ToUint (Get json "type") =? TypeFloat64) then Fail ErrInvalidJSON
  else
    match strconv.ParseFloat (ToString (Get json "value")) with
    | (_, Some err) => Fail err
    | (value, None) => OK (mkFloat64 value)
    end.

Definition NewStringFromJSON (json : Any) : result String_ :=
  if negb (ToUint (Get json "type") =? TypeString) then Fail ErrInvalidJSON
  else
    let value := ToString (Get json "value") in
    OK (mkString value).

Definition NewIDFromJSON (json : Any) : result ID :=
  if negb (ToUint (Get json "type") =? TypeID) then Fail ErrInvalidJSON
  else
    let value := ToString (Get json "value") in
    OK (mkID value).

(** [var xs []jsoniter.Any; json.Get(key).ToVal(&xs)]. *)
Definition readSlice (json : Any) (key : string) : result (list Any) :=
  match ToVal (Get json key) with
  | Some xs => OK xs
  | None => Panic "not implemented"
  end.

End Leaves.

(** The composite constructors and the dispatcher call one another.
    Their bodies are written once over the dispatcher they call
    ([NewExpressionFromJSON], a variable here); the knot is tied below
    by recursion on the nesting depth of the input. *)
Module Body.
Section Knot.
Context {F : strconv.Floats} {D : Document}.
Variable NewExpressionFromJSON : Any -> result Expression.

Definition NewDefinitionFromJSON (json : Any) : result Definition_ :=
  if negb (ToUint (Get json "type") =? TypeDefinition) then Fail ErrInvalidJSON
  else
    id <- NewIDFromJSON (Get json "id") ;;
    expression <- NewExpressionFromJSON (Get json "expression") ;;
    OK (mkDefinition id expression).

Definition NewModuleFromJSON (json : Any) : result Module_ :=
  if negb (ToUint (Get json "type") =? TypeModule) then Fail ErrInvalidJSON
  else
    let name := ToString (Get json "name") in
    jsonDefinitions <- readSlice json "definitions" ;;
    definitions <- forEach NewDefinitionFromJSON jsonDefinitions ;;
    OK (mkModule name definitions).

Definition NewLambdaFromJSON (json : Any) : result Lambda :=
  if negb (ToUint (Get json "type") =? TypeLambda) then Fail ErrInvalidJSON
  else
    jsonParameters <- readSlice json "parameters" ;;
    parameters <- forEach NewIDFromJSON jsonParameters ;;
    expression <- NewExpressionFromJSON (Get json "expression") ;;
    OK (mkLambda parameters expression).

Definition NewCallFromJSON (json : Any) : result Call :=
  if negb (ToUint (Get json "type") =? TypeCall) then Fail ErrInvalidJSON
  else
    id <- NewIDFromJSON (Get json "id") ;;
    jsonArguments <- readSlice json "arguments" ;;
    arguments <- forEach NewExpressionFromJSON jsonArguments ;;
    OK (mkCall id arguments).

Definition NewAnonymousCallFromJSON (json : Any) : result AnonymousCall :=
  if negb (ToUint (Get json "type") =? TypeAnonymousCall) then Fail ErrInvalidJSON
  else
    lambda <- NewLambdaFromJSON (Get json "lambda") ;;
    jsonArguments <- readSlice json "arguments" ;;
    arguments <- forEach NewExpressionFromJSON jsonArguments ;;
    OK (mkAnonymousCall lambda arguments).

(** [return NewXFromJSON(json)] from a function returning [Expression]. *)
Definition asExpression {A : Type} (inj : A -> Expression) (r : result A)
  : result Expression :=
  x <- r ;; OK (inj x).

(** The [switch] of the dispatcher. *)
Definition dispatch (json : Any) : result Expression :=
  let tag := ToUint (Get json "type") in
  if tag =? TypeModule then asExpression EModule (NewModuleFromJSON json)
  else if tag =? TypeNil then asExpression ENil (NewNilFromJSON json)
  else if tag =? TypeBoolean then asExpression EBoolean (NewBooleanFromJSON json)
  else if tag =? TypeInt32 then asExpression EInt32 (NewInt32FromJSON json)
  else if tag =? TypeFloat64 then asExpression EFloat64 (NewFloat64FromJSON json)
  else if tag =? TypeString then asExpression EString (NewStringFromJSON json)
  else if tag =? TypeID then asExpression EID (NewIDFromJSON json)
  else if tag =? TypeDefinition then asExpression EDefinition (NewDefinitionFromJSON json)
  else if tag =? TypeLambda then asExpression ELambda (NewLambdaFromJSON json)
  else if tag =? TypeCall then asExpression ECall (NewCallFromJSON json)
  else if tag =? TypeAnonymousCall then
    asExpression EAnonymousCall (NewAnonymousCallFromJSON json)
  else Fail ErrInvalidJSON.

End Knot.
End Body.

Section Decoder.
Context {F : strconv.Floats} {D : Document}.

(** The dispatcher with the call depth bounded by [fuel]; running out
    is reported as a panic, and [fuel] above the nesting depth of the
    input never runs out (see [NewExpressionFromJSON_unfold]). *)
Fixpoint decodeWithin (fuel : nat) (json : Any) : result Expression :=
  match fuel with
  | O => Panic "stack overflow"
  | S fuel' => Body.dispatch (decodeWithin fuel') json
  end.

Definition NewExpressionFromJSON (json : Any) : result Expression :=
  decodeWithin (S (depth json)) json.

Definition NewModuleFromJSON : Any -> result Module_ :=
  Body.NewModuleFromJSON NewExpressionFromJSON.

Definition NewDefinitionFromJSON : Any -> result Definition_ :=
  Body.NewDefinitionFromJSON NewExpressionFromJSON.

Definition NewLambdaFromJSON : Any -> result Lambda :=
  Body.NewLambdaFromJSON NewExpressionFromJSON.

Definition NewCallFromJSON : Any -> result Call :=
  Body.NewCallFromJSON NewExpressionFromJSON.

Definition NewAnonymousCallFromJSON : Any -> result AnonymousCall :=
  Body.NewAnonymousCallFromJSON NewExpressionFromJSON.

End Decoder.

(** *** A runtime to evaluate examples on

    The examples below hold no [Float64] node, read no composite value
    as a string and no number as a bool, so nothing they show depends on
    these choices. *)

Definition exampleFloats : strconv.Floats :=
  {| strconv.float64 := unit;
     strconv.FormatFloat := fun _ => "0";
     strconv.ParseFloat := fun s => (tt, Some (strconv.syntaxError "ParseFloat" s)) |}.

Definition exampleDocument : Document :=
  {| sourceText := fun _ => ""; numberNonZero := fun _ => true |}.

(** The last fixture of [TestNewExpressionFromJSON]. *)
Definition anonymousCallFixture : @Expression exampleFloats :=
  EAnonymousCall
    (mkAnonymousCall
       (mkLambda [mkID "a"] (EID (mkID "a")))
       [EString (mkString "a's value")]).

(** [{"type":0,"value":true}], the input of the test "invalid type". *)
Definition invalidTypeInput : Any :=
  objectLazyAny [("type", numberLazyAny "0"); ("value", trueAny)].

(** [{"type":true,"definitions":[]}] *)
Definition trueTagInput : Any :=
  objectLazyAny [("type", trueAny); ("definitions", arrayLazyAny [])].

(** [{"type":1,"name":"m"}] *)
Definition moduleWithoutDefinitions : Any :=
  objectLazyAny [("type", numberLazyAny "1"); ("name", stringAny "m")].

(** [{"type":1,"definitions":[]}] *)
Definition moduleWithoutName : Any :=
  objectLazyAny [("type", numberLazyAny "1"); ("definitions", arrayLazyAny [])].

(** [{"type":3}], [{"type":6}] and [{"type":7}] *)
Definition booleanWithoutValue : Any := objectLazyAny [("type", numberLazyAny "3")].
Definition stringWithoutValue : Any := objectLazyAny [("type", numberLazyAny "6")].
Definition idWithoutValue : Any := objectLazyAny [("type", numberLazyAny "7")].

(** [{"type":2,"value":"ignored","definitions":null}] *)
Definition nilWithExtras : Any :=
  objectLazyAny [("type", numberLazyAny "2"); ("value", stringAny "ignored");
                 ("definitions", nilAny)].

(** [{"type":8,"id":{"type":7,"value":"x"},"expression":{"type":4,"value":"forty-two"}}] *)
Definition malformedDefinition : Any :=
  objectLazyAny
    [("type", numberLazyAny "8");
     ("id", objectLazyAny [("type", numberLazyAny "7"); ("value", stringAny "x")]);
     ("expression",
       objectLazyAny [("type", numberLazyAny "4"); ("value", stringAny "forty-two")])].

(** [{"type":8,"id":{"type":7,"value":"y"},"expression":{"type":2}}] *)
Definition soundDefinition : Any :=
  objectLazyAny
    [("type", numberLazyAny "8");
     ("id", objectLazyAny [("type", numberLazyAny "7"); ("value", stringAny "y")]);
     ("expression", objectLazyAny [("type", numberLazyAny "2")])].

(** A module holding the two definitions above, the sound one first. *)
Definition moduleWithMalformedDefinition : Any :=
  objectLazyAny
    [("type", numberLazyAny "1"); ("name", stringAny "m");
     ("definitions", arrayLazyAny [soundDefinition; malformedDefinition])].

(** *** Predicates and inputs for the properties of the decoder *)

Section Int32s.
Context {F : strconv.Floats}.

(** Every [Int32] in the tree holds a value of the int32 range. *)
Fixpoint int32sFit (e : Expression) : Prop :=
  match e with
  | EModule m => int32sFitModule m
  | EInt32 (mkInt32 Value) => DecimalText.inInt32 Value
  | EDefinition d => int32sFitDefinition d
  | ELambda l => int32sFitLambda l
  | ECall c => int32sFitCall c
  | EAnonymousCall c => int32sFitAnonymousCall c
  | _ => True
  end
with int32sFitModule (m : Module_) : Prop :=
  match m with
  | mkModule _ Definitions => allOf int32sFitDefinition Definitions
  end
with int32sFitDefinition (d : Definition_) : Prop :=
  match d with
  | mkDefinition _ Expression_ => int32sFit Expression_
  end
with int32sFitLambda (l : Lambda) : Prop :=
  match l with
  | mkLambda _ Expression_ => int32sFit Expression_
  end
with int32sFitCall (c : Call) : Prop :=
  match c with
  | mkCall _ Arguments => allOf int32sFit Arguments
  end
with int32sFitAnonymousCall (c : AnonymousCall) : Prop :=
  match c with
  | mkAnonymousCall Lambda_ Arguments =>
      int32sFitLambda Lambda_ /\ allOf int32sFit Arguments
  end.

End Int32s.

Definition validTextID (i : ID) : Prop :=
  match i with
  | mkID Value => utf8.ValidString Value = true
  end.

Section Text.
Context {F : strconv.Floats}.

(** Every string that the encoder writes for the tree is valid UTF-8:
    the values of its [String] and [ID] nodes and the text of its
    floats.  (The names of modules are not written.) *)
Fixpoint validText (e : Expression) : Prop :=
  match e with
  | EModule m => validTextModule m
  | EFloat64 (mkFloat64 Value) =>
      utf8.ValidString (strconv.FormatFloat Value) = true
  | EString (mkString Value) => utf8.ValidString Value = true
  | EID i => validTextID i
  | EDefinition d => validTextDefinition d
  | ELambda l => validTextLambda l
  | ECall c => validTextCall c
  | EAnonymousCall c => validTextAnonymousCall c
  | _ => True
  end
with validTextModule (m : Module_) : Prop :=
  match m with
  | mkModule _ Definitions => allOf validTextDefinition Definitions
  end
with validTextDefinition (d : Definition_) : Prop :=
  match d with
  | mkDefinition ID_ Expression_ => validTextID ID_ /\ validText Expression_
  end
with validTextLambda (l : Lambda) : Prop :=
  match l with
  | mkLambda Parameters Expression_ =>
      allOf validTextID Parameters /\ validText Expression_
  end
with validTextCall (c : Call) : Prop :=
  match c with
  | mkCall ID_ Arguments => validTextID ID_ /\ allOf validText Arguments
  end
with validTextAnonymousCall (c : AnonymousCall) : Prop :=
  match c with
  | mkAnonymousCall Lambda_ Arguments =>
      validTextLambda Lambda_ /\ allOf validText Arguments
  end.

End Text.

(** An input whose tag is not [tag]: its ["type"] field is missing, or
    is an integer literal of another value, or in general is read by
    [ToUint] as another value. *)
Definition tagOtherThan (json : Any) (tag : Z) : Prop :=
  Get json "type" = invalidAny \/
  (exists buf, Get json "type" = numberLazyAny buf /\
               DecimalText.isDecimalText buf = true /\
               DecimalText.decimalValue buf <> tag) \/
  ToUint (Get json "type") <> tag.

(** [nestedIn x json]: [x] is [json], or is reached from it through
    fields and through the elements that [ToVal] yields. *)
Inductive nestedIn : Any -> Any -> Prop :=
| nested_here (json : Any) : nestedIn json json
| nested_field (x json : Any) (key : string) :
    nestedIn x (Get json key) -> nestedIn x json
| nested_element (x elem json : Any) (key : string) (elems : list Any) :
    ToVal (Get json key) = Some elems -> In elem elems -> nestedIn x elem ->
    nestedIn x json.

(** [err] is the error that [ParseInt] or [ParseFloat] returns for the
    ["value"] text of [x], a node tagged [Int32] or [Float64]. *)
Definition parseErrorAt {F : strconv.Floats} {D : Document} (x : Any) (err : error)
  : Prop :=
  (ToUint (Get x "type") = TypeInt32 /\
   exists n, strconv.ParseInt (ToString (Get x "value")) 32 = (n, Some err)) \/
  (ToUint (Get x "type") = TypeFloat64 /\
   exists value, strconv.ParseFloat (ToString (Get x "value")) = (value, Some err)).

(** Where an error of the decoder comes from: it is the sentinel, or
    it is the parse error of a number node nested in the input. *)
Definition arisesIn {F : strconv.Floats} {D : Document} (json : Any) (err : error)
  : Prop :=
  err = ErrInvalidJSON \/ exists x, nestedIn x json /\ parseErrorAt x err.

(** The keys that the decoder passes to [Get]. *)
Definition readKeys : list string :=
  ["type"; "name"; "definitions"; "value"; "id"; "expression"; "parameters";
   "lambda"; "arguments"].

(** The errors that the decoder can return: its own sentinel, the
    [*NumError] of [ParseInt], and whatever [ParseFloat] returns. *)
Definition decoderError {F : strconv.Floats} (err : error) : Prop :=
  err = ErrInvalidJSON \/
  (exists s kind, err = NumError "ParseInt" s kind) \/
  (exists s value, strconv.ParseFloat s = (value, Some err)).

(** Inputs and trees for the examples of those properties. *)

(** [{"type":7,"value":"x"}] *)
Definition idInput : Any :=
  objectLazyAny [("type", numberLazyAny "7"); ("value", stringAny "x")].

(** [{"comment":[1],"value":"x","type":7}] *)
Definition idInputWithComment : Any :=
  objectLazyAny
    [("comment", arrayLazyAny [numberLazyAny "1"]); ("value", stringAny "x");
     ("type", numberLazyAny "7")].

(** [{"type":4,"value":"+7"}] *)
Definition plusSevenInput : Any :=
  objectLazyAny [("type", numberLazyAny "4"); ("value", stringAny "+7")].

(** [{"type":10,"id":{"type":7,"value":"f"},"arguments":[{"type":4,"value":"-42"}]}] *)
Definition callInput : Any :=
  objectLazyAny
    [("type", numberLazyAny "10");
     ("id", objectLazyAny [("type", numberLazyAny "7"); ("value", stringAny "f")]);
     ("arguments",
       arrayLazyAny
         [objectLazyAny [("type", numberLazyAny "4"); ("value", stringAny "-42")]])].

(** [{"type":10,"id":{"type":7,"value":"f"},
      "arguments":[{"type":2},{"type":4,"value":"forty-two"},{"type":0}]}] *)
Definition callWithMalformedArgument : Any :=
  objectLazyAny
    [("type", numberLazyAny "10");
     ("id", objectLazyAny [("type", numberLazyAny "7"); ("value", stringAny "f")]);
     ("arguments",
       arrayLazyAny
         [objectLazyAny [("type", numberLazyAny "2")];
          objectLazyAny [("type", numberLazyAny "4"); ("value", stringAny "forty-two")];
          objectLazyAny [("type", numberLazyAny "0")]])].

(** A module holding [soundDefinition]. *)
Definition soundModule : Any :=
  objectLazyAny
    [("type", numberLazyAny "1"); ("name", stringAny "m");
     ("definitions", arrayLazyAny [soundDefinition])].

(** [{"type":9,"parameters":[{"type":7,"value":"x"}],"expression":{"type":2}}] *)
Definition lambdaInput : Any :=
  objectLazyAny
    [("type", numberLazyAny "9");
     ("parameters", arrayLazyAny [idInput]);
     ("expression", objectLazyAny [("type", numberLazyAny "2")])].

(** The [Lambda] fixture of [TestNewExpressionFromJSON]. *)
Definition lambdaFixture : @Lambda exampleFloats :=
  mkLambda [mkID "x"] (EID (mkID "x")).

(** [{"type":"3abc","value":true}] *)
Definition booleanWithTextTag : Any :=
  objectLazyAny [("type", stringAny "3abc"); ("value", trueAny)].

(** [{"type":1}] *)
Definition moduleWithTagOnly : Any := objectLazyAny [("type", numberLazyAny "1")].

(** A string that is no UTF-8: the one byte 0xFF. *)
Definition byteFF : string := String "255" EmptyString.

(** Two modules that differ in their names only. *)
Definition moduleNamedA : @Expression exampleFloats :=
  EModule (mkModule "a" [mkDefinition (mkID "x") (ENil mkNil)]).
Definition moduleNamedB : @Expression exampleFloats :=
  EModule (mkModule "b" [mkDefinition (mkID "x") (ENil mkNil)]).

End ast.


(** * Properties *)

(** ** strconv *)

Module strconvFacts.
Import strconv DecimalText.

Lemma pow_2_64 : 2 ^ 64 = 18446744073709551616.
Proof. reflexivity. Qed.

Lemma pow_2_32 : 2 ^ 32 = 4294967296.
Proof. reflexivity. Qed.

Lemma pow_2_31 : 2 ^ 31 = 2147483648.
Proof. reflexivity. Qed.

Lemma isDigit_range (c : ascii) :
  isDigit c = true -> 0 <= digitVal c <= 9.
Proof.
  unfold isDigit, digitVal. cbv zeta.
  rewrite andb_true_iff, !Z.leb_le. lia.
Qed.

Lemma digitChar_digit (d : Z) :
  0 <= d <= 9 -> isDigit (digitChar d) = true /\ digitVal (digitChar d) = d.
Proof.
  intros Hd.
  assert (H : d = 0 \/ d = 1 \/ d = 2 \/ d = 3 \/ d = 4 \/
              d = 5 \/ d = 6 \/ d = 7 \/ d = 8 \/ d = 9) by lia.
  repeat (destruct H as [-> | H]); try subst d; split; reflexivity.
Qed.

Lemma digitChar_not_sign (d : Z) :
  0 <= d <= 9 ->
  Ascii.eqb (digitChar d) "+" = false /\ Ascii.eqb (digitChar d) "-" = false.
Proof.
  intros Hd.
  assert (H : d = 0 \/ d = 1 \/ d = 2 \/ d = 3 \/ d = 4 \/
              d = 5 \/ d = 6 \/ d = 7 \/ d = 8 \/ d = 9) by lia.
  repeat (destruct H as [-> | H]); try subst d; split; reflexivity.
Qed.

Lemma digitsValue_ge (s : string) :
  forall n, allDigits s = true -> 0 <= n -> n <= digitsValue s n.
Proof.
  induction s as [| c rest IH]; intros n Hs Hn; simpl in *.
  - lia.
  - apply andb_true_iff in Hs as [Hc Hrest].
    apply isDigit_range in Hc.
    specialize (IH (n * 10 + digitVal c) Hrest ltac:(lia)). lia.
Qed.

(** On digits alone the loop of [ParseUint] computes their value and
    checks it against the width (any width up to 60 bits, where the
    64-bit accumulator cannot wrap). *)
Lemma parseUintLoop_digits (s0 s : string) (maxVal : Z) :
  maxVal <= 2 ^ 60 ->
  forall n,
    allDigits s = true -> 0 <= n <= maxVal ->
    parseUintLoop s0 maxVal s n =
      if digitsValue s n <=? maxVal then (digitsValue s n, None)
      else (maxVal, Some (rangeError "ParseUint" s0)).
Proof.
  intros HM. change (2 ^ 60) with 1152921504606846976 in HM.
  induction s as [| c rest IH]; intros n Hs Hn.
  - simpl. destruct (Z.leb_spec n maxVal); [reflexivity | lia].
  - simpl in Hs. apply andb_true_iff in Hs as [Hc Hrest].
    pose proof (isDigit_range c Hc) as Hd.
    cbn [parseUintLoop digitsValue]. rewrite Hc. cbn [negb].
    unfold maxUint64, wrap64. rewrite pow_2_64.
    change (18446744073709551616 - 1) with 18446744073709551615.
    change (18446744073709551615 / 10 + 1) with 1844674407370955162.
    destruct (Z.leb_spec 1844674407370955162 n) as [Hcut | _]; [lia |].
    rewrite (Z.mod_small (n * 10)) by lia.
    rewrite (Z.mod_small (n * 10 + digitVal c)) by lia.
    destruct (Z.ltb_spec (n * 10 + digitVal c) (n * 10)) as [Hlt | _]; [lia |].
    cbn [orb].
    destruct (Z.ltb_spec maxVal (n * 10 + digitVal c)) as [Hbig | Hsmall].
    + pose proof (digitsValue_ge rest (n * 10 + digitVal c) Hrest ltac:(lia)).
      destruct (Z.leb_spec (digitsValue rest (n * 10 + digitVal c)) maxVal);
        [lia | reflexivity].
    + apply IH; [exact Hrest | lia].
Qed.

(** A byte that is no digit makes the loop fail, with a syntax error or
    with the range error met before it. *)
Lemma parseUintLoop_not_digits (s0 s : string) (maxVal : Z) :
  forall n,
    allDigits s = false ->
    exists v k, parseUintLoop s0 maxVal s n = (v, Some (NumError "ParseUint" s0 k)).
Proof.
  induction s as [| c rest IH]; intros n Hs; simpl in *.
  - discriminate.
  - destruct (isDigit c) eqn:Hc; simpl in *.
    + destruct (_ <=? n); [eexists _, _; reflexivity |].
      destruct (_ || _); [eexists _, _; reflexivity |].
      apply IH, Hs.
    + eexists _, _; reflexivity.
Qed.

Lemma parseUintLoop_fails (s0 s : string) (maxVal : Z) :
  forall n,
    allDigits s = false ->
    parseUintLoop s0 maxVal s n = (0, Some (syntaxError "ParseUint" s0)) \/
    parseUintLoop s0 maxVal s n = (maxVal, Some (rangeError "ParseUint" s0)).
Proof.
  induction s as [| c rest IH]; intros n Hs; simpl in *.
  - discriminate.
  - destruct (isDigit c) eqn:Hc; simpl in *.
    + destruct (_ <=? n); [right; reflexivity |].
      destruct (_ || _); [right; reflexivity |].
      apply IH, Hs.
    + left; reflexivity.
Qed.

Lemma ParseUint_digits (s : string) :
  digits s = true ->
  ParseUint s 32 =
    if digitsValue s 0 <=? 2 ^ 32 - 1 then (digitsValue s 0, None)
    else (2 ^ 32 - 1, Some (rangeError "ParseUint" s)).
Proof.
  destruct s as [| c rest]; [discriminate |].
  intros Hs. unfold ParseUint.
  apply parseUintLoop_digits; [rewrite pow_2_32; cbv; discriminate | exact Hs |].
  rewrite pow_2_32. lia.
Qed.

Lemma ParseUint_fails (s : string) (bitSize : Z) :
  digits s = false ->
  ParseUint s bitSize = (0, Some (syntaxError "ParseUint" s)) \/
  ParseUint s bitSize = (2 ^ bitSize - 1, Some (rangeError "ParseUint" s)).
Proof.
  destruct s as [| c rest]; [left; reflexivity |].
  intros Hs. unfold ParseUint. apply parseUintLoop_fails, Hs.
Qed.

Lemma digitsValue_nonneg (s : string) :
  digits s = true -> 0 <= digitsValue s 0.
Proof.
  destruct s as [| c rest]; [discriminate |].
  intros Hs. apply digitsValue_ge; [exact Hs | lia].
Qed.

Lemma isDigit_not_sign (c : ascii) :
  isDigit c = true -> Ascii.eqb c "+" = false /\ Ascii.eqb c "-" = false.
Proof.
  intros Hc. split.
  - destruct (Ascii.eqb_spec c "+") as [-> |]; [discriminate | reflexivity].
  - destruct (Ascii.eqb_spec c "-") as [-> |]; [discriminate | reflexivity].
Qed.

Lemma isDecimalText_parts (s : string) :
  isDecimalText s = digits (unsignedPart s).
Proof.
  destruct s as [| c rest]; [reflexivity |].
  simpl. destruct (Ascii.eqb c "+"); [reflexivity |].
  destruct (Ascii.eqb c "-"); reflexivity.
Qed.

Lemma decimalValue_parts (s : string) :
  decimalValue s =
    if isNegative s then - digitsValue (unsignedPart s) 0
    else digitsValue (unsignedPart s) 0.
Proof.
  destruct s as [| c rest]; [reflexivity |].
  simpl. destruct (Ascii.eqb_spec c "+") as [-> |]; [reflexivity |].
  destruct (Ascii.eqb c "-"); reflexivity.
Qed.

Lemma ParseInt_parts (c : ascii) (rest : string) :
  let s := String c rest in
  ParseInt s 32 =
    let '(un, err) := ParseUint (unsignedPart s) 32 in
    match err with
    | Some (NumError _ _ ErrSyntax) => (0, Some (syntaxError "ParseInt" s))
    | Some ErrInvalidJSON => (0, err)
    | _ =>
        if negb (isNegative s) && (2 ^ 31 <=? un)
        then (2 ^ 31 - 1, Some (rangeError "ParseInt" s))
        else if isNegative s && (2 ^ 31 <? un)
        then (- 2 ^ 31, Some (rangeError "ParseInt" s))
        else (if isNegative s then - un else un, None)
    end.
Proof. reflexivity. Qed.

(** [ParseInt] accepts decimal text whose value fits 32 bits, and
    returns that value. *)
Lemma ParseInt_accepts (s : string) :
  isDecimalText s = true -> inInt32 (decimalValue s) ->
  ParseInt s 32 = (decimalValue s, None).
Proof.
  unfold inInt32. rewrite isDecimalText_parts, decimalValue_parts.
  destruct s as [| c rest]; [discriminate |].
  intros Hd Hv. rewrite ParseInt_parts. cbv zeta.
  rewrite (ParseUint_digits _ Hd).
  pose proof (digitsValue_nonneg _ Hd) as Hnn.
  rewrite pow_2_32, pow_2_31 in *.
  set (u := digitsValue (unsignedPart (String c rest)) 0) in *.
  destruct (Z.leb_spec u (4294967296 - 1)) as [_ | Hbig];
    [| destruct (isNegative (String c rest)); lia].
  destruct (isNegative (String c rest)); cbn [negb andb].
  - destruct (Z.ltb_spec 2147483648 u); [lia | reflexivity].
  - destruct (Z.leb_spec 2147483648 u); [lia | reflexivity].
Qed.

(** Everything else is rejected with a [*NumError] naming [ParseInt]
    and the text. *)
Lemma ParseInt_rejects (s : string) :
  isDecimalText s = false \/ ~ inInt32 (decimalValue s) ->
  exists v k, ParseInt s 32 = (v, Some (NumError "ParseInt" s k)).
Proof.
  unfold inInt32. rewrite isDecimalText_parts, decimalValue_parts.
  destruct s as [| c rest]; [intros _; eexists _, _; reflexivity |].
  intros Hbad. rewrite ParseInt_parts. cbv zeta.
  destruct (digits (unsignedPart (String c rest))) eqn:Hd.
  - destruct Hbad as [Hbad | Hbad]; [discriminate |].
    rewrite (ParseUint_digits _ Hd).
    pose proof (digitsValue_nonneg _ Hd) as Hnn.
    rewrite pow_2_32, pow_2_31 in *.
    set (u := digitsValue (unsignedPart (String c rest)) 0) in *.
    destruct (Z.leb_spec u (4294967296 - 1)) as [Hfit | Hbig].
    + destruct (isNegative (String c rest)); cbn [negb andb].
      * destruct (Z.ltb_spec 2147483648 u); [eexists _, _; reflexivity | lia].
      * destruct (Z.leb_spec 2147483648 u); [eexists _, _; reflexivity | lia].
    + destruct (isNegative (String c rest)); cbn [negb andb];
        eexists _, _; reflexivity.
  - destruct (ParseUint_fails _ 32 Hd) as [-> | ->].
    + eexists _, _; reflexivity.
    + destruct (isNegative (String c rest)); cbn [negb andb];
        eexists _, _; reflexivity.
Qed.

(** *** FormatInt *)

Lemma formatBits_head (k : nat) :
  forall u acc, 0 <= u ->
    exists c r, formatBits (S k) u acc = String c r /\ isDigit c = true.
Proof.
  induction k as [| k IH]; intros u acc Hu; cbn [formatBits].
  - assert (Hd : 0 <= u mod 10 <= 9) by (pose proof (Z.mod_pos_bound u 10); lia).
    destruct (u / 10 =? 0); eexists _, _; (split; [reflexivity |]);
      apply digitChar_digit, Hd.
  - destruct (u / 10 =? 0).
    + eexists _, _. split; [reflexivity |].
      apply digitChar_digit. pose proof (Z.mod_pos_bound u 10); lia.
    + apply (IH (u / 10)). apply Z.div_pos; lia.
Qed.

Lemma formatBits_allDigits (k : nat) :
  forall u acc, 0 <= u ->
    allDigits (formatBits k u acc) = allDigits acc.
Proof.
  induction k as [| k IH]; intros u acc Hu; cbn [formatBits]; [reflexivity |].
  assert (Hd : isDigit (digitChar (u mod 10)) = true).
  { apply digitChar_digit. pose proof (Z.mod_pos_bound u 10); lia. }
  destruct (u / 10 =? 0).
  - cbn [allDigits]. rewrite Hd. reflexivity.
  - rewrite IH by (apply Z.div_pos; lia).
    cbn [allDigits]. rewrite Hd. reflexivity.
Qed.

Lemma formatBits_value (k : nat) :
  forall u acc, 0 <= u < 10 ^ Z.of_nat k ->
    digitsValue (formatBits k u acc) 0 = digitsValue acc u.
Proof.
  induction k as [| k IH]; intros u acc Hu.
  - change (10 ^ Z.of_nat 0) with 1 in Hu.
    assert (u = 0) by lia. subst u. reflexivity.
  - cbn [formatBits].
    assert (Hd : digitVal (digitChar (u mod 10)) = u mod 10).
    { apply digitChar_digit. pose proof (Z.mod_pos_bound u 10); lia. }
    pose proof (Z.div_mod u 10 ltac:(lia)) as Hdm.
    destruct (Z.eqb_spec (u / 10) 0) as [Hz | Hnz].
    + cbn [digitsValue]. rewrite Hd. f_equal. lia.
    + rewrite IH.
      * cbn [digitsValue]. rewrite Hd. f_equal. lia.
      * split; [apply Z.div_pos; lia |].
        apply Z.div_lt_upper_bound; [lia |].
        rewrite Nat2Z.inj_succ, Z.pow_succ_r in Hu by lia. lia.
Qed.

Lemma formatBits_digits (u : Z) :
  0 <= u -> digits (formatBits 20 u "") = true.
Proof.
  intros Hu. destruct (formatBits_head 19 u "" Hu) as (c & r & Heq & _).
  pose proof (formatBits_allDigits 20 u "" Hu) as Hall.
  rewrite Heq in *. exact Hall.
Qed.

(** [FormatInt] writes decimal text that denotes its argument, with a
    minus sign exactly for the negative ones. *)
Lemma FormatInt_text (v : Z) :
  - 10 ^ 20 < v < 10 ^ 20 ->
  isDecimalText (FormatInt v) = true /\ decimalValue (FormatInt v) = v.
Proof.
  intros Hv. unfold FormatInt.
  destruct (Z.ltb_spec v 0) as [Hneg | Hpos].
  - cbn [isDecimalText decimalValue]. change (Ascii.eqb "-" "+") with false.
    change (Ascii.eqb "-" "-") with true. cbv iota.
    split; [apply formatBits_digits; lia |].
    rewrite formatBits_value; [simpl; lia |].
    change (Z.of_nat 20) with 20. lia.
  - destruct (formatBits_head 19 v "" Hpos) as (c & r & Heq & Hc).
    pose proof (formatBits_digits v Hpos) as Hdig.
    pose proof (formatBits_value 20 v "") as Hval.
    rewrite Heq in *.
    destruct (isDigit_not_sign c Hc) as [Hplus Hminus].
    cbn [isDecimalText decimalValue]. rewrite Hplus, Hminus.
    split; [exact Hdig |].
    rewrite Hval; [reflexivity |]. change (Z.of_nat 20) with 20. lia.
Qed.

Lemma FormatInt_sign (v : Z) :
  (v < 0 -> exists r, FormatInt v = String "-" r) /\
  (0 <= v -> exists c r, FormatInt v = String c r /\ isDigit c = true).
Proof.
  unfold FormatInt. split; intros Hv.
  - destruct (Z.ltb_spec v 0); [eexists; reflexivity | lia].
  - destruct (Z.ltb_spec v 0); [lia |]. apply formatBits_head, Hv.
Qed.

(** Text written by [FormatInt] for an int32 is read back by
    [ParseInt] as the same value. *)
Lemma ParseInt_FormatInt (v : Z) :
  inInt32 v -> ParseInt (FormatInt v) 32 = (v, None).
Proof.
  intros Hv.
  assert (Hwide : - 10 ^ 20 < v < 10 ^ 20).
  { unfold inInt32 in Hv. rewrite pow_2_31 in Hv.
    change (10 ^ 20) with 100000000000000000000. lia. }
  destruct (FormatInt_text v Hwide) as [Htext Hval].
  rewrite <- Hval at 2. apply ParseInt_accepts; [exact Htext |].
  rewrite Hval. exact Hv.
Qed.

Lemma formatBits_leading (k : nat) :
  forall u acc, 0 < u < 10 ^ Z.of_nat (S k) ->
    exists c r, formatBits (S k) u acc = String c r /\
                isDigit c = true /\ 1 <= digitVal c.
Proof.
  induction k as [| k IH]; intros u acc Hu; cbn [formatBits].
  - change (10 ^ Z.of_nat 1) with 10 in Hu.
    rewrite (Z.div_small u 10) by lia. cbn [Z.eqb].
    eexists _, _. split; [reflexivity |].
    rewrite (Z.mod_small u 10) by lia.
    destruct (digitChar_digit u ltac:(lia)) as [Hd Hv]. rewrite Hv. split; [exact Hd | lia].
  - pose proof (Z.div_mod u 10 ltac:(lia)) as Hdm.
    pose proof (Z.mod_pos_bound u 10 ltac:(lia)) as Hmod.
    destruct (Z.eqb_spec (u / 10) 0) as [Hz | Hnz].
    + eexists _, _. split; [reflexivity |].
      destruct (digitChar_digit (u mod 10) ltac:(lia)) as [Hd Hv].
      rewrite Hv. split; [exact Hd | lia].
    + apply (IH (u / 10)).
      assert (0 <= u / 10) by (apply Z.div_pos; lia).
      split; [lia |].
      apply Z.div_lt_upper_bound; [lia |].
      rewrite Nat2Z.inj_succ, Z.pow_succ_r in Hu by lia. lia.
Qed.

End strconvFacts.

(** ** Strings on the wire *)

Module utf8Facts.
Import strconv DecimalText strconvFacts utf8 jsoniter.

(** Valid UTF-8 is read back as written. *)
Lemma writeReadString_valid (s : string) :
  forall inRune, validFrom inRune s = true -> writeReadString inRune s = s.
Proof.
  induction s as [| b rest IH]; intros inRune; [reflexivity |].
  cbn [validFrom writeReadString]. destruct inRune as [| k].
  - destruct (invalidAt (String b rest)); [discriminate |].
    intros H. f_equal. apply IH, H.
  - intros H. f_equal. apply IH, H.
Qed.

Lemma ValidString_read_back (s : string) :
  ValidString s = true -> writeReadString 0 s = s.
Proof. apply writeReadString_valid. Qed.

(** An ASCII byte is a rune of its own. *)
Lemma ascii_rune (c : ascii) (rest : string) :
  byte c < 128 ->
  invalidAt (String c rest) = false /\
  snd (DecodeRuneInString (String c rest)) = 1%nat.
Proof.
  intros Hc. unfold invalidAt, DecodeRuneInString.
  destruct (Z.ltb_spec (byte c) RuneSelf) as [_ | Hge];
    [| unfold RuneSelf in Hge; lia].
  cbn [snd]. split; [| reflexivity].
  destruct (Z.eqb_spec (byte c) RuneError) as [Heq | _]; [| reflexivity].
  unfold RuneError in Heq. lia.
Qed.

Lemma validFrom_ascii (c : ascii) (rest : string) :
  byte c < 128 -> validFrom 0 (String c rest) = validFrom 0 rest.
Proof.
  intros Hc. destruct (ascii_rune c rest Hc) as [Hvalid Hsize].
  cbn [validFrom]. rewrite Hvalid, Hsize. reflexivity.
Qed.

Lemma isDigit_ascii (c : ascii) : isDigit c = true -> byte c < 128.
Proof.
  unfold isDigit, byte. intros H. apply andb_true_iff in H as [_ H].
  apply Z.leb_le in H. lia.
Qed.

Lemma allDigits_valid (s : string) : allDigits s = true -> validFrom 0 s = true.
Proof.
  induction s as [| c rest IH]; [reflexivity |].
  cbn [allDigits]. intros H. apply andb_true_iff in H as [Hc Hrest].
  rewrite (validFrom_ascii c rest (isDigit_ascii c Hc)). apply IH, Hrest.
Qed.

(** Decimal text is ASCII, hence valid UTF-8. *)
Lemma isDecimalText_valid (s : string) :
  isDecimalText s = true -> ValidString s = true.
Proof.
  unfold ValidString. destruct s as [| c rest]; [discriminate |].
  cbn [isDecimalText].
  destruct (Ascii.eqb_spec c "+") as [-> | _].
  { intros H. rewrite validFrom_ascii by (cbv; reflexivity).
    apply allDigits_valid. destruct rest; [discriminate | exact H]. }
  destruct (Ascii.eqb_spec c "-") as [-> | _].
  { intros H. rewrite validFrom_ascii by (cbv; reflexivity).
    apply allDigits_valid. destruct rest; [discriminate | exact H]. }
  intros H. apply allDigits_valid. exact H.
Qed.

(** The text of an int32 is read back as written. *)
Lemma writeReadString_FormatInt (v : Z) :
  inInt32 v -> writeReadString 0 (FormatInt v) = FormatInt v.
Proof.
  intros Hv. apply ValidString_read_back, isDecimalText_valid.
  apply FormatInt_text. unfold inInt32 in Hv. rewrite pow_2_31 in Hv.
  change (10 ^ 20) with 100000000000000000000. lia.
Qed.

End utf8Facts.

(** ** json-iterator *)

Module jsoniterFacts.
Import strconv DecimalText strconvFacts jsoniter.

(** On digits whose value fits 64 bits the loop of [ReadUint64]
    computes that value. *)
Lemma readUint64Loop_digits (s : string) :
  forall value,
    allDigits s = true -> 0 <= value -> digitsValue s value < 2 ^ 64 ->
    readUint64Loop s value = digitsValue s value.
Proof.
  rewrite pow_2_64.
  induction s as [| c rest IH]; intros value Hs Hv Hfit; [reflexivity |].
  simpl in Hs. apply andb_true_iff in Hs as [Hc Hrest].
  pose proof (isDigit_range c Hc) as Hd.
  cbn [readUint64Loop digitsValue] in *. rewrite Hc. cbn [negb].
  pose proof (digitsValue_ge rest (value * 10 + digitVal c) Hrest ltac:(lia)) as Hge.
  unfold wrap64. rewrite pow_2_64, (Z.mod_small (value * 10 + digitVal c)) by lia.
  destruct (_ <? value).
  - destruct (Z.ltb_spec (value * 10 + digitVal c) value); [lia |].
    apply IH; [exact Hrest | lia | exact Hfit].
  - apply IH; [exact Hrest | lia | exact Hfit].
Qed.

(** An unsigned integer written in decimal is read back by [ToUint]. *)
Lemma readUint64_FormatInt (n : Z) :
  0 <= n < 2 ^ 64 -> readUint64 (FormatInt n) = n.
Proof.
  intros Hn. rewrite pow_2_64 in Hn.
  destruct (Z.eq_dec n 0) as [-> | Hnz]; [reflexivity |].
  unfold FormatInt. destruct (Z.ltb_spec n 0) as [| _]; [lia |].
  destruct (formatBits_leading 19 n "") as (c & r & Heq & Hc & Hlead).
  { change (10 ^ Z.of_nat 20) with 100000000000000000000. lia. }
  pose proof (formatBits_allDigits 20 n "" ltac:(lia)) as Hall.
  pose proof (formatBits_value 20 n "") as Hval.
  rewrite Heq in *. cbn [allDigits] in Hall. rewrite Hc in Hall.
  cbn [digitsValue] in Hval. change (0 * 10 + digitVal c) with (digitVal c) in Hval.
  specialize (Hval ltac:(change (10 ^ Z.of_nat 20) with 100000000000000000000; lia)).
  cbn [digitsValue] in Hval.
  unfold readUint64. rewrite Hc. cbn [negb].
  destruct (Z.eqb_spec (digitVal c) 0); [lia |].
  pose proof (isDigit_range c Hc).
  rewrite readUint64Loop_digits; [exact Hval | exact Hall | lia |].
  rewrite Hval, pow_2_64. lia.
Qed.

Lemma depth_locate (fields : list (string * Any)) (key : string) (value : Any) :
  locateObjectField fields key = Some value ->
  (depth value <= list_max (map (fun kv => depth (snd kv)) fields))%nat.
Proof.
  induction fields as [| [k v] rest IH]; [discriminate |].
  simpl. destruct (String.eqb k key).
  - intros [= ->]. apply Nat.le_max_l.
  - intros H. specialize (IH H). simpl in IH. lia.
Qed.

(** A field of an object is nested less deep than the object; any
    other [Get] yields [invalidAny]. *)
Lemma depth_Get_object (fields : list (string * Any)) (key : string) :
  (depth (Get (objectLazyAny fields) key) < depth (objectLazyAny fields))%nat.
Proof.
  cbn [Get depth].
  destruct (locateObjectField fields key) as [value |] eqn:Hloc.
  - apply depth_locate in Hloc. lia.
  - cbn [depth]. lia.
Qed.

Lemma depth_Get (any : Any) (key : string) :
  (depth (Get any key) <= depth any)%nat.
Proof.
  destruct any; try (cbn; lia).
  pose proof (depth_Get_object fields key). lia.
Qed.

Lemma depth_ToVal {D : Document} (any : Any) (xs : list Any) :
  ToVal any = Some xs ->
  forall x, In x xs -> (depth x < depth any)%nat.
Proof.
  destruct any; try discriminate; intros [= <-] x Hx; [| destruct Hx].
  cbn [depth]. apply (in_map depth) in Hx.
  pose proof (proj1 (list_max_le (map depth elems) (list_max (map depth elems)))
                (Nat.le_refl _)) as Hall.
  rewrite Forall_forall in Hall. specialize (Hall _ Hx). lia.
Qed.

Lemma Get_not_object (any : Any) (key : string) :
  (forall fields, any <> objectLazyAny fields) -> Get any key = invalidAny.
Proof.
  intros Hno. destruct any; try reflexivity. exfalso. eapply Hno. reflexivity.
Qed.

(** The loop never returns less than it started from, unless it
    detects an overflow and returns 0. *)
Lemma readUint64Loop_monotone (s : string) :
  forall value, 0 <= value < 2 ^ 64 ->
    readUint64Loop s value = 0 \/ value <= readUint64Loop s value.
Proof.
  rewrite pow_2_64.
  induction s as [| c rest IH]; intros value Hv; cbn [readUint64Loop].
  - right. lia.
  - destruct (isDigit c) eqn:Hc; cbn [negb]; [| right; lia].
    pose proof (isDigit_range c Hc) as Hd.
    unfold maxUint64, wrap64. rewrite pow_2_64.
    change (18446744073709551616 - 1) with 18446744073709551615.
    change (18446744073709551615 / 10 - 1) with 1844674407370955160.
    destruct (Z.ltb_spec 1844674407370955160 value) as [Hbig | Hsmall].
    + pose proof (Z.mod_pos_bound (value * 10 + digitVal c) 18446744073709551616
                    ltac:(lia)) as Hmod.
      destruct (Z.ltb_spec ((value * 10 + digitVal c) mod 18446744073709551616) value)
        as [Hwrap | Hkeep]; [left; reflexivity |].
      destruct (IH _ Hmod) as [Hz | Hle]; [left; exact Hz | right; lia].
    + destruct (IH (value * 10 + digitVal c) ltac:(lia)) as [Hz | Hle];
        [left; exact Hz | right; lia].
Qed.

(** Digits whose value does not fit 64 bits are read as 0 or as a
    number above [maxUint64 / 10 - 1]. *)
Lemma readUint64Loop_overflow (s : string) :
  forall value,
    allDigits s = true -> 0 <= value < 2 ^ 64 -> 2 ^ 64 <= digitsValue s value ->
    readUint64Loop s value = 0 \/
    1844674407370955160 < readUint64Loop s value.
Proof.
  rewrite pow_2_64.
  induction s as [| c rest IH]; intros value Hs Hv Hbig; cbn [digitsValue] in Hbig.
  - lia.
  - simpl in Hs. apply andb_true_iff in Hs as [Hc Hrest].
    pose proof (isDigit_range c Hc) as Hd.
    cbn [readUint64Loop]. rewrite Hc. cbn [negb].
    unfold maxUint64, wrap64. rewrite pow_2_64.
    change (18446744073709551616 - 1) with 18446744073709551615.
    change (18446744073709551615 / 10 - 1) with 1844674407370955160.
    destruct (Z.ltb_spec 1844674407370955160 value) as [Hhigh | Hlow].
    + pose proof (Z.mod_pos_bound (value * 10 + digitVal c) 18446744073709551616
                    ltac:(lia)) as Hmod.
      destruct (Z.ltb_spec ((value * 10 + digitVal c) mod 18446744073709551616) value)
        as [Hwrap | Hkeep]; [left; reflexivity |].
      destruct (readUint64Loop_monotone rest _ ltac:(rewrite pow_2_64; exact Hmod))
        as [Hz | Hle]; [left; exact Hz | right; lia].
    + apply IH; [exact Hrest | lia | exact Hbig].
Qed.

(** A number literal that is an integer outside 1..11 is not read by
    [ToUint] as a tag: a negative one reads as 0, one that fits 64 bits
    as itself, a longer one as 0 or as a large number. *)
Lemma readUint64_integer_literal (s : string) :
  isDecimalText s = true -> ~ (1 <= decimalValue s <= 11) ->
  ~ (1 <= readUint64 s <= 11).
Proof.
  destruct s as [| c rest]; [discriminate |].
  cbn [isDecimalText decimalValue readUint64].
  destruct (Ascii.eqb_spec c "+") as [-> | _];
    [change (isDigit "+") with false; cbn [negb]; lia |].
  destruct (Ascii.eqb_spec c "-") as [-> | _];
    [change (isDigit "-") with false; cbn [negb]; lia |].
  cbn [digits allDigits digitsValue]. change (0 * 10 + digitVal c) with (digitVal c).
  intros Hs Hout. apply andb_true_iff in Hs as [Hc Hrest].
  rewrite Hc. cbn [negb]. pose proof (isDigit_range c Hc) as Hd.
  destruct (Z.eqb_spec (digitVal c) 0) as [_ | Hnz]; [lia |].
  destruct (Z_lt_le_dec (digitsValue rest (digitVal c)) (2 ^ 64)) as [Hfit | Hbig].
  - rewrite readUint64Loop_digits; [exact Hout | exact Hrest | lia | exact Hfit].
  - destruct (readUint64Loop_overflow rest (digitVal c) Hrest
                ltac:(rewrite pow_2_64; lia) Hbig) as [-> | Hlarge]; lia.
Qed.

(** A number literal that is an integer other than a tag is not read
    by [ToUint] as that tag. *)
Lemma readUint64_other_literal (s : string) (tag : Z) :
  isDecimalText s = true -> 1 <= tag <= 11 -> decimalValue s <> tag ->
  readUint64 s <> tag.
Proof.
  destruct s as [| c rest]; [discriminate |].
  cbn [isDecimalText decimalValue readUint64].
  destruct (Ascii.eqb_spec c "+") as [-> | _];
    [change (isDigit "+") with false; cbn [negb]; lia |].
  destruct (Ascii.eqb_spec c "-") as [-> | _];
    [change (isDigit "-") with false; cbn [negb]; lia |].
  cbn [digits allDigits digitsValue]. change (0 * 10 + digitVal c) with (digitVal c).
  intros Hs Htag Hother. apply andb_true_iff in Hs as [Hc Hrest].
  rewrite Hc. cbn [negb]. pose proof (isDigit_range c Hc) as Hd.
  destruct (Z.eqb_spec (digitVal c) 0) as [_ | Hnz]; [lia |].
  destruct (Z_lt_le_dec (digitsValue rest (digitVal c)) (2 ^ 64)) as [Hfit | Hbig].
  - rewrite readUint64Loop_digits; [exact Hother | exact Hrest | lia | exact Hfit].
  - destruct (readUint64Loop_overflow rest (digitVal c) Hrest
                ltac:(rewrite pow_2_64; lia) Hbig) as [-> | Hlarge]; lia.
Qed.

End jsoniterFacts.

(** ** The decoder's recursion *)

Module knot.
Import strconv jsoniter jsoniterFacts ast.

Lemma forEach_ext {A B : Type} (f g : A -> result B) (xs : list A) :
  (forall x, In x xs -> f x = g x) -> forEach f xs = forEach g xs.
Proof.
  induction xs as [| x rest IH]; intros Hfg; [reflexivity |].
  cbn [forEach]. rewrite (Hfg x (or_introl eq_refl)).
  rewrite IH; [reflexivity |]. intros y Hy. apply Hfg. right. exact Hy.
Qed.

(** The loop returns the first error it meets. *)
Lemma forEach_stops {A B : Type} (f : A -> result B) (before after : list A)
  (x : A) (ys : list B) (err : error) :
  forEach f before = OK ys -> f x = Fail err ->
  forEach f (before ++ x :: after) = Fail err.
Proof.
  revert ys. induction before as [| b rest IH]; intros ys Hok Hx.
  - cbn [app forEach]. rewrite Hx. reflexivity.
  - cbn [app forEach] in *. destruct (f b) as [y | e | m]; try discriminate.
    cbn [bind] in *. destruct (forEach f rest) as [ys' | e | m]; try discriminate.
    rewrite (IH ys' eq_refl Hx). reflexivity.
Qed.

Section Locality.
Context {F : Floats} {D : Document}.
Variables f g : Any -> result Expression.

(** The calls that a body makes to the dispatcher are calls on the
    parts of its input: two dispatchers that agree below the depth of
    [json] give the same result on [json]. *)
Lemma dispatch_ext (json : Any) :
  (forall x, (depth x < depth json)%nat -> f x = g x) ->
  Body.dispatch f json = Body.dispatch g json.
Proof.
  intros Hfg.
  destruct json as [| | | | buf | val | elems | fields]; try reflexivity.
  set (json := objectLazyAny fields) in *.
  assert (Hget : forall key, f (Get json key) = g (Get json key)).
  { intros key. apply Hfg, depth_Get_object. }
  assert (Hslice : forall key xs, readSlice json key = OK xs ->
                     forall x, In x xs -> (depth x < depth json)%nat).
  { intros key xs Hxs x Hx. unfold readSlice in Hxs.
    destruct (ToVal (Get json key)) as [ys |] eqn:Hval; [| discriminate].
    injection Hxs as ->.
    pose proof (depth_ToVal _ _ Hval x Hx).
    pose proof (depth_Get_object fields key). fold json in H0. lia. }
  assert (Hargs : forall key,
            (xs <- readSlice json key ;; forEach f xs) =
            (xs <- readSlice json key ;; forEach g xs)).
  { intros key. destruct (readSlice json key) as [xs | |] eqn:Hxs; try reflexivity.
    cbn [bind]. apply forEach_ext. intros x Hx. apply Hfg. eauto. }
  assert (Hexpr : forall x, (depth x < depth json)%nat ->
            f (Get x "expression") = g (Get x "expression")).
  { intros x Hx. apply Hfg. pose proof (depth_Get x "expression"). lia. }
  assert (Hlam : forall x, (depth x < depth json)%nat ->
            Body.NewLambdaFromJSON f x = Body.NewLambdaFromJSON g x).
  { intros x Hx. unfold Body.NewLambdaFromJSON. rewrite (Hexpr x Hx). reflexivity. }
  assert (Hdef : forall x, (depth x < depth json)%nat ->
            Body.NewDefinitionFromJSON f x = Body.NewDefinitionFromJSON g x).
  { intros x Hx. unfold Body.NewDefinitionFromJSON. rewrite (Hexpr x Hx). reflexivity. }
  assert (Hdefs : forall xs, readSlice json "definitions" = OK xs ->
            forEach (Body.NewDefinitionFromJSON f) xs =
            forEach (Body.NewDefinitionFromJSON g) xs).
  { intros xs Hxs. apply forEach_ext. intros x Hx. apply Hdef. eauto. }
  assert (HM : Body.NewModuleFromJSON f json = Body.NewModuleFromJSON g json).
  { unfold Body.NewModuleFromJSON.
    destruct (readSlice json "definitions") as [ds | |] eqn:Hds; try reflexivity.
    cbn [bind]. rewrite (Hdefs ds eq_refl). reflexivity. }
  assert (HD : Body.NewDefinitionFromJSON f json = Body.NewDefinitionFromJSON g json).
  { unfold Body.NewDefinitionFromJSON. rewrite Hget. reflexivity. }
  assert (HL : Body.NewLambdaFromJSON f json = Body.NewLambdaFromJSON g json).
  { unfold Body.NewLambdaFromJSON. rewrite Hget. reflexivity. }
  assert (HC : Body.NewCallFromJSON f json = Body.NewCallFromJSON g json).
  { unfold Body.NewCallFromJSON.
    destruct (readSlice json "arguments") as [xs | |] eqn:Hxs; try reflexivity.
    cbn [bind]. rewrite (forEach_ext f g xs); [reflexivity |].
    intros x Hx. apply Hfg. eauto. }
  assert (HA : Body.NewAnonymousCallFromJSON f json =
               Body.NewAnonymousCallFromJSON g json).
  { unfold Body.NewAnonymousCallFromJSON.
    rewrite (Hlam (Get json "lambda")) by apply depth_Get_object.
    destruct (readSlice json "arguments") as [xs | |] eqn:Hxs; try reflexivity.
    cbn [bind]. rewrite (forEach_ext f g xs); [reflexivity |].
    intros x Hx. apply Hfg. eauto. }
  unfold Body.dispatch. cbv zeta. rewrite HM, HD, HL, HC, HA. reflexivity.
Qed.

End Locality.

Section Knot.
Context {F : Floats} {D : Document}.

(** More fuel than the depth of the input changes nothing. *)
Lemma decodeWithin_stable (n : nat) :
  forall m json, (depth json < n)%nat -> (depth json < m)%nat ->
    decodeWithin n json = decodeWithin m json.
Proof.
  induction n as [| n IH]; intros m json Hn Hm; [lia |].
  destruct m as [| m]; [lia |].
  cbn [decodeWithin]. apply dispatch_ext.
  intros x Hx. apply IH; lia.
Qed.

(** The dispatcher satisfies the equation that the source writes: its
    body, calling itself. *)
Lemma NewExpressionFromJSON_unfold (json : Any) :
  NewExpressionFromJSON json = Body.dispatch NewExpressionFromJSON json.
Proof.
  unfold NewExpressionFromJSON at 1. cbn [decodeWithin].
  apply dispatch_ext. intros x Hx.
  unfold NewExpressionFromJSON. apply decodeWithin_stable; lia.
Qed.

End Knot.

End knot.

(** ** The codec *)

Module codec.
Import strconv DecimalText strconvFacts utf8 utf8Facts jsoniter jsoniterFacts ast knot.

Lemma allOf_cons {A : Type} (P : A -> Prop) (x : A) (xs : list A) :
  allOf P (x :: xs) <-> P x /\ allOf P xs.
Proof. reflexivity. Qed.

(** Decoding the encodings of a list, element by element. *)
Lemma forEach_map {A B : Type} (enc : A -> Any) (dec : Any -> result B)
  (g : A -> B) (P Q : A -> Prop) (xs : list A) :
  Forall (fun x => P x -> Q x -> dec (enc x) = OK (g x)) xs ->
  allOf P xs -> allOf Q xs ->
  forEach dec (map enc xs) = OK (map g xs).
Proof.
  induction 1 as [| x rest Hx _ IH]; intros HP HQ; [reflexivity |].
  apply allOf_cons in HP as [HPx HP]. apply allOf_cons in HQ as [HQx HQ].
  cbn [map forEach]. rewrite (Hx HPx HQx). cbn [bind].
  rewrite (IH HP HQ). reflexivity.
Qed.

Section Dispatch.
Context {F : Floats} {D : Document}.

(** What the switch of the dispatcher selects for each tag. *)
Lemma NewExpressionFromJSON_cases (json : Any) :
  NewExpressionFromJSON json =
    let tag := ToUint (Get json "type") in
    if tag =? TypeModule then Body.asExpression EModule (NewModuleFromJSON json)
    else if tag =? TypeNil then Body.asExpression ENil (NewNilFromJSON json)
    else if tag =? TypeBoolean then Body.asExpression EBoolean (NewBooleanFromJSON json)
    else if tag =? TypeInt32 then Body.asExpression EInt32 (NewInt32FromJSON json)
    else if tag =? TypeFloat64 then Body.asExpression EFloat64 (NewFloat64FromJSON json)
    else if tag =? TypeString then Body.asExpression EString (NewStringFromJSON json)
    else if tag =? TypeID then Body.asExpression EID (NewIDFromJSON json)
    else if tag =? TypeDefinition then
      Body.asExpression EDefinition (NewDefinitionFromJSON json)
    else if tag =? TypeLambda then Body.asExpression ELambda (NewLambdaFromJSON json)
    else if tag =? TypeCall then Body.asExpression ECall (NewCallFromJSON json)
    else if tag =? TypeAnonymousCall then
      Body.asExpression EAnonymousCall (NewAnonymousCallFromJSON json)
    else Fail ErrInvalidJSON.
Proof. apply NewExpressionFromJSON_unfold. Qed.

(** The equations of the composite constructors, as the source writes
    them. *)
Lemma NewDefinitionFromJSON_eq (json : Any) :
  NewDefinitionFromJSON json =
    if negb (ToUint (Get json "type") =? TypeDefinition) then Fail ErrInvalidJSON
    else
      id <- NewIDFromJSON (Get json "id") ;;
      expression <- NewExpressionFromJSON (Get json "expression") ;;
      OK (mkDefinition id expression).
Proof. reflexivity. Qed.

Lemma NewModuleFromJSON_eq (json : Any) :
  NewModuleFromJSON json =
    if negb (ToUint (Get json "type") =? TypeModule) then Fail ErrInvalidJSON
    else
      let name := ToString (Get json "name") in
      jsonDefinitions <- readSlice json "definitions" ;;
      definitions <- forEach NewDefinitionFromJSON jsonDefinitions ;;
      OK (mkModule name definitions).
Proof. reflexivity. Qed.

Lemma NewLambdaFromJSON_eq (json : Any) :
  NewLambdaFromJSON json =
    if negb (ToUint (Get json "type") =? TypeLambda) then Fail ErrInvalidJSON
    else
      jsonParameters <- readSlice json "parameters" ;;
      parameters <- forEach NewIDFromJSON jsonParameters ;;
      expression <- NewExpressionFromJSON (Get json "expression") ;;
      OK (mkLambda parameters expression).
Proof. reflexivity. Qed.

Lemma NewCallFromJSON_eq (json : Any) :
  NewCallFromJSON json =
    if negb (ToUint (Get json "type") =? TypeCall) then Fail ErrInvalidJSON
    else
      id <- NewIDFromJSON (Get json "id") ;;
      jsonArguments <- readSlice json "arguments" ;;
      arguments <- forEach NewExpressionFromJSON jsonArguments ;;
      OK (mkCall id arguments).
Proof. reflexivity. Qed.

Lemma NewAnonymousCallFromJSON_eq (json : Any) :
  NewAnonymousCallFromJSON json =
    if negb (ToUint (Get json "type") =? TypeAnonymousCall) then Fail ErrInvalidJSON
    else
      lambda <- NewLambdaFromJSON (Get json "lambda") ;;
      jsonArguments <- readSlice json "arguments" ;;
      arguments <- forEach NewExpressionFromJSON jsonArguments ;;
      OK (mkAnonymousCall lambda arguments).
Proof. reflexivity. Qed.

End Dispatch.

(** *** Round trip *)

Section RoundTrip.
Context {F : Floats} {D : Document}.

(** The wire form of a node: its [JSON()] map, marshalled and read
    back as an [Any]. *)
Local Abbreviation wire entries := (MarshalGet (VMap entries)).

Lemma NewNilFromJSON_JSON (n : Nil) :
  NewNilFromJSON (wire (Nil_JSON n)) = OK n.
Proof. destruct n. reflexivity. Qed.

Lemma NewBooleanFromJSON_JSON (b : Boolean) :
  NewBooleanFromJSON (wire (Boolean_JSON b)) = OK b.
Proof. destruct b as [[|]]; reflexivity. Qed.

Lemma NewInt32FromJSON_JSON (v : Z) :
  inInt32 v -> NewInt32FromJSON (wire (Int32_JSON (mkInt32 v))) = OK (mkInt32 v).
Proof.
  intros Hv. unfold NewInt32FromJSON.
  change (ToUint (Get (wire (Int32_JSON (mkInt32 v))) "type")) with TypeInt32.
  change (ToString (Get (wire (Int32_JSON (mkInt32 v))) "value"))
    with (writeReadString 0 (FormatInt v)).
  rewrite (writeReadString_FormatInt v Hv), (ParseInt_FormatInt v Hv). reflexivity.
Qed.

Lemma NewFloat64FromJSON_JSON (v : float64) :
  ValidString (FormatFloat v) = true ->
  ParseFloat (FormatFloat v) = (v, None) ->
  NewFloat64FromJSON (wire (Float64_JSON (mkFloat64 v))) = OK (mkFloat64 v).
Proof.
  intros Hvalid Hv. unfold NewFloat64FromJSON.
  change (ToUint (Get (wire (Float64_JSON (mkFloat64 v))) "type")) with TypeFloat64.
  change (ToString (Get (wire (Float64_JSON (mkFloat64 v))) "value"))
    with (writeReadString 0 (FormatFloat v)).
  rewrite (ValidString_read_back _ Hvalid), Hv. reflexivity.
Qed.

(** A [String] and an [ID] come back with their text as the wire
    carries it. *)
Lemma NewStringFromJSON_wire (v : string) :
  NewStringFromJSON (wire (String_JSON (mkString v))) =
    OK (mkString (writeReadString 0 v)).
Proof. reflexivity. Qed.

Lemma NewIDFromJSON_wire (v : string) :
  NewIDFromJSON (wire (ID_JSON (mkID v))) = OK (mkID (writeReadString 0 v)).
Proof. reflexivity. Qed.

Lemma NewStringFromJSON_JSON (v : string) :
  ValidString v = true ->
  NewStringFromJSON (wire (String_JSON (mkString v))) = OK (mkString v).
Proof.
  intros Hv. rewrite NewStringFromJSON_wire, (ValidString_read_back v Hv).
  reflexivity.
Qed.

Lemma NewIDFromJSON_JSON (i : ID) :
  validTextID i -> NewIDFromJSON (wire (ID_JSON i)) = OK i.
Proof.
  destruct i as [v]. intros Hv.
  rewrite NewIDFromJSON_wire, (ValidString_read_back v Hv). reflexivity.
Qed.

Lemma forEach_IDs (ps : list ID) :
  allOf validTextID ps ->
  forEach NewIDFromJSON (map MarshalGet (map (fun p => VMap (ID_JSON p)) ps)) = OK ps.
Proof.
  induction ps as [| p rest IH]; intros Hps; [reflexivity |].
  apply allOf_cons in Hps as [Hp Hrest].
  cbn [map forEach]. rewrite (NewIDFromJSON_JSON p Hp). cbn [bind].
  rewrite (IH Hrest). reflexivity.
Qed.

Lemma forEach_nodes {A B : Type} (json : A -> list (string * GoValue))
  (dec : Any -> result B) (g : A -> B) (P Q : A -> Prop) (xs : list A) :
  Forall (fun x => P x -> Q x -> dec (wire (json x)) = OK (g x)) xs ->
  allOf P xs -> allOf Q xs ->
  forEach dec (map MarshalGet (map (fun x => VMap (json x)) xs)) = OK (map g xs).
Proof.
  intros Hall HP HQ. rewrite map_map.
  apply (forEach_map (fun x => MarshalGet (VMap (json x))) dec g P Q); assumption.
Qed.

(** Decoding the encoding of a tree gives the tree back, except that
    the names of its modules come back empty: [Module.JSON] writes no
    ["name"] entry. *)
Theorem decode_encode (e : Expression) :
  wellFormed e -> validText e ->
  NewExpressionFromJSON (wire (Expression_JSON e)) = OK (withoutModuleNames e).
Proof.
  revert e.
  apply (Expression_nodes_ind
    (fun e => wellFormed e -> validText e ->
       NewExpressionFromJSON (wire (Expression_JSON e)) = OK (withoutModuleNames e))
    (fun m => wellFormedModule m -> validTextModule m ->
       NewModuleFromJSON (wire (Module_JSON m)) = OK (withoutModuleNamesModule m))
    (fun d => wellFormedDefinition d -> validTextDefinition d ->
       NewDefinitionFromJSON (wire (Definition_JSON d)) =
         OK (withoutModuleNamesDefinition d))
    (fun l => wellFormedLambda l -> validTextLambda l ->
       NewLambdaFromJSON (wire (Lambda_JSON l)) = OK (withoutModuleNamesLambda l))
    (fun c => wellFormedCall c -> validTextCall c ->
       NewCallFromJSON (wire (Call_JSON c)) = OK (withoutModuleNamesCall c))
    (fun c => wellFormedAnonymousCall c -> validTextAnonymousCall c ->
       NewAnonymousCallFromJSON (wire (AnonymousCall_JSON c)) =
         OK (withoutModuleNamesAnonymousCall c))).
  - (* Module *)
    intros [name ds] IH Hwf Hvt. rewrite NewExpressionFromJSON_cases.
    change (ToUint (Get (wire (Expression_JSON (EModule (mkModule name ds)))) "type"))
      with TypeModule.
    change (Expression_JSON (EModule (mkModule name ds)))
      with (Module_JSON (mkModule name ds)).
    cbv zeta. cbn [Z.eqb TypeModule Pos.eqb]. rewrite (IH Hwf Hvt). reflexivity.
  - intros n _ _. rewrite NewExpressionFromJSON_cases.
    change (Expression_JSON (ENil n)) with (Nil_JSON n).
    rewrite NewNilFromJSON_JSON. destruct n. reflexivity.
  - intros b _ _. rewrite NewExpressionFromJSON_cases.
    change (Expression_JSON (EBoolean b)) with (Boolean_JSON b).
    rewrite NewBooleanFromJSON_JSON. destruct b. reflexivity.
  - intros [v] Hv _. rewrite NewExpressionFromJSON_cases.
    change (Expression_JSON (EInt32 (mkInt32 v))) with (Int32_JSON (mkInt32 v)).
    rewrite (NewInt32FromJSON_JSON v Hv). reflexivity.
  - intros [v] Hv Hvt. rewrite NewExpressionFromJSON_cases.
    change (Expression_JSON (EFloat64 (mkFloat64 v))) with (Float64_JSON (mkFloat64 v)).
    rewrite (NewFloat64FromJSON_JSON v Hvt Hv). reflexivity.
  - intros [v] _ Hvt. rewrite NewExpressionFromJSON_cases.
    change (Expression_JSON (EString (mkString v))) with (String_JSON (mkString v)).
    rewrite (NewStringFromJSON_JSON v Hvt). reflexivity.
  - intros i _ Hvt. rewrite NewExpressionFromJSON_cases.
    change (Expression_JSON (EID i)) with (ID_JSON i).
    rewrite (NewIDFromJSON_JSON i Hvt). destruct i. reflexivity.
  - (* Definition *)
    intros [i e] IH Hwf Hvt. rewrite NewExpressionFromJSON_cases.
    change (Expression_JSON (EDefinition (mkDefinition i e)))
      with (Definition_JSON (mkDefinition i e)).
    rewrite (IH Hwf Hvt). reflexivity.
  - intros [ps e] IH Hwf Hvt. rewrite NewExpressionFromJSON_cases.
    change (Expression_JSON (ELambda (mkLambda ps e)))
      with (Lambda_JSON (mkLambda ps e)).
    rewrite (IH Hwf Hvt). reflexivity.
  - intros [i args] IH Hwf Hvt. rewrite NewExpressionFromJSON_cases.
    change (Expression_JSON (ECall (mkCall i args)))
      with (Call_JSON (mkCall i args)).
    rewrite (IH Hwf Hvt). reflexivity.
  - intros [l args] IH Hwf Hvt. rewrite NewExpressionFromJSON_cases.
    change (Expression_JSON (EAnonymousCall (mkAnonymousCall l args)))
      with (AnonymousCall_JSON (mkAnonymousCall l args)).
    rewrite (IH Hwf Hvt). reflexivity.
  - (* mkModule *)
    intros name ds IH Hwf Hvt. rewrite NewModuleFromJSON_eq.
    change (ToUint (Get (wire (Module_JSON (mkModule name ds))) "type"))
      with TypeModule.
    change (ToString (Get (wire (Module_JSON (mkModule name ds))) "name")) with "".
    change (readSlice (wire (Module_JSON (mkModule name ds))) "definitions")
      with (OK (map MarshalGet (map (fun d => VMap (Definition_JSON d)) ds))).
    cbn [bind TypeModule Z.eqb Pos.eqb negb]. cbv zeta.
    rewrite (forEach_nodes Definition_JSON NewDefinitionFromJSON
               withoutModuleNamesDefinition wellFormedDefinition
               validTextDefinition ds IH Hwf Hvt).
    reflexivity.
  - (* mkDefinition *)
    intros i e IH Hwf [Hid Hvt]. rewrite NewDefinitionFromJSON_eq.
    change (ToUint (Get (wire (Definition_JSON (mkDefinition i e))) "type"))
      with TypeDefinition.
    change (Get (wire (Definition_JSON (mkDefinition i e))) "id")
      with (wire (ID_JSON i)).
    change (Get (wire (Definition_JSON (mkDefinition i e))) "expression")
      with (wire (Expression_JSON e)).
    rewrite (NewIDFromJSON_JSON i Hid), (IH Hwf Hvt). reflexivity.
  - (* mkLambda *)
    intros ps e IH Hwf [Hps Hvt]. rewrite NewLambdaFromJSON_eq.
    change (ToUint (Get (wire (Lambda_JSON (mkLambda ps e))) "type"))
      with TypeLambda.
    change (readSlice (wire (Lambda_JSON (mkLambda ps e))) "parameters")
      with (OK (map MarshalGet (map (fun p => VMap (ID_JSON p)) ps))).
    change (Get (wire (Lambda_JSON (mkLambda ps e))) "expression")
      with (wire (Expression_JSON e)).
    cbn [bind TypeLambda Z.eqb Pos.eqb negb].
    rewrite (forEach_IDs ps Hps), (IH Hwf Hvt). reflexivity.
  - (* mkCall *)
    intros i args IH Hwf [Hid Hvt]. rewrite NewCallFromJSON_eq.
    change (ToUint (Get (wire (Call_JSON (mkCall i args))) "type")) with TypeCall.
    change (Get (wire (Call_JSON (mkCall i args))) "id") with (wire (ID_JSON i)).
    change (readSlice (wire (Call_JSON (mkCall i args))) "arguments")
      with (OK (map MarshalGet (map (fun a => VMap (Expression_JSON a)) args))).
    rewrite (NewIDFromJSON_JSON i Hid).
    cbn [bind TypeCall Z.eqb Pos.eqb negb].
    rewrite (forEach_nodes Expression_JSON NewExpressionFromJSON
               withoutModuleNames wellFormed validText args IH Hwf Hvt).
    reflexivity.
  - (* mkAnonymousCall *)
    intros l args IHl IH [Hwfl Hwf] [Hvtl Hvt]. rewrite NewAnonymousCallFromJSON_eq.
    change (ToUint (Get (wire (AnonymousCall_JSON (mkAnonymousCall l args))) "type"))
      with TypeAnonymousCall.
    change (Get (wire (AnonymousCall_JSON (mkAnonymousCall l args))) "lambda")
      with (wire (Lambda_JSON l)).
    change (readSlice (wire (AnonymousCall_JSON (mkAnonymousCall l args))) "arguments")
      with (OK (map MarshalGet (map (fun a => VMap (Expression_JSON a)) args))).
    rewrite (IHl Hwfl Hvtl).
    cbn [bind TypeAnonymousCall Z.eqb Pos.eqb negb].
    rewrite (forEach_nodes Expression_JSON NewExpressionFromJSON
               withoutModuleNames wellFormed validText args IH Hwf Hvt).
    reflexivity.
Qed.

Lemma Type_withoutModuleNames (e : Expression) :
  Type_ (withoutModuleNames e) = Type_ e.
Proof. destruct e; reflexivity. Qed.

End RoundTrip.

(** *** Tags *)

Section Tags.
Context {F : Floats} {D : Document}.

Lemma NewExpressionFromJSON_default (json : Any) :
  ~ (1 <= ToUint (Get json "type") <= 11) ->
  NewExpressionFromJSON json = Fail ErrInvalidJSON.
Proof.
  intros Htag. rewrite NewExpressionFromJSON_cases. cbv zeta.
  unfold TypeModule, TypeNil, TypeBoolean, TypeInt32, TypeFloat64, TypeString,
    TypeID, TypeDefinition, TypeLambda, TypeCall, TypeAnonymousCall.
  repeat match goal with
         | |- context [?a =? ?b] => destruct (Z.eqb_spec a b); [lia |]
         end.
  reflexivity.
Qed.

(** Values of the ["type"] field that [ToUint] reads outside 1..11:
    no field at all, null, false, an empty array, an object, and a
    number literal that is an integer outside 1..11. *)
Lemma tags_read_outside (tag : Any) :
  tag = invalidAny \/ tag = nilAny \/ tag = falseAny \/
  tag = arrayLazyAny [] \/ (exists fields, tag = objectLazyAny fields) \/
  (exists buf, tag = numberLazyAny buf /\ isDecimalText buf = true /\
               ~ (1 <= decimalValue buf <= 11)) ->
  ~ (1 <= ToUint tag <= 11).
Proof.
  intros [-> | [-> | [-> | [-> | [[fields ->] | (buf & -> & Hint & Hout)]]]]];
    cbn [ToUint]; try lia.
  apply readUint64_integer_literal; assumption.
Qed.

Lemma tag_mismatch (json : Any) (tag : Z) :
  ToUint (Get json "type") <> tag ->
  negb (ToUint (Get json "type") =? tag) = true.
Proof.
  intros Hne. destruct (Z.eqb_spec (ToUint (Get json "type")) tag); [contradiction | reflexivity].
Qed.

Lemma tag_match (json : Any) (tag : Z) :
  ToUint (Get json "type") = tag ->
  negb (ToUint (Get json "type") =? tag) = false.
Proof. intros ->. rewrite Z.eqb_refl. reflexivity. Qed.

End Tags.

End codec.

(** ** What a decode returns, part by part *)

Module shape.
Import strconv DecimalText strconvFacts jsoniter jsoniterFacts ast knot codec.

Lemma forEach_OK {A B : Type} (f : A -> result B) (xs : list A) :
  forall ys, forEach f xs = OK ys <-> Forall2 (fun x y => f x = OK y) xs ys.
Proof.
  induction xs as [| x rest IH]; intros ys; cbn [forEach].
  - split.
    + intros [= <-]. constructor.
    + intros H. inversion H. reflexivity.
  - split.
    + destruct (f x) as [y | e | m] eqn:Hx; cbn [bind]; try discriminate.
      destruct (forEach f rest) as [ys' | e | m] eqn:Hrest; cbn [bind];
        try discriminate.
      intros [= <-]. constructor; [exact Hx | apply IH; reflexivity].
    + intros H. inversion H as [| x' y xs' ys' Hx Hrest]; subst.
      rewrite Hx. cbn [bind]. apply IH in Hrest. rewrite Hrest. reflexivity.
Qed.

Lemma forEach_Fail {A B : Type} (f : A -> result B) (xs : list A) (err : error) :
  forEach f xs = Fail err -> exists x, In x xs /\ f x = Fail err.
Proof.
  induction xs as [| x rest IH]; cbn [forEach]; [discriminate |].
  destruct (f x) as [y | e | m] eqn:Hx; cbn [bind]; try discriminate.
  - destruct (forEach f rest) as [ys' | e | m] eqn:Hrest; cbn [bind];
      try discriminate.
    intros [= ->]. destruct (IH eq_refl) as (x' & Hin & Hx').
    exists x'. split; [right; exact Hin | exact Hx'].
  - intros [= ->]. exists x. split; [left; reflexivity | exact Hx].
Qed.

Lemma forEach_Panic {A B : Type} (f : A -> result B) (xs : list A) (msg : string) :
  forEach f xs = Panic msg -> exists x, In x xs /\ f x = Panic msg.
Proof.
  induction xs as [| x rest IH]; cbn [forEach]; [discriminate |].
  destruct (f x) as [y | e | m] eqn:Hx; cbn [bind]; try discriminate.
  - destruct (forEach f rest) as [ys' | e | m] eqn:Hrest; cbn [bind];
      try discriminate.
    intros [= ->]. destruct (IH eq_refl) as (x' & Hin & Hx').
    exists x'. split; [right; exact Hin | exact Hx'].
  - intros [= ->]. exists x. split; [left; reflexivity | exact Hx].
Qed.

Lemma Forall2_allOf {A B : Type} (R : A -> B -> Prop) (Q : B -> Prop)
  (xs : list A) (ys : list B) :
  Forall2 R xs ys -> (forall x y, In x xs -> R x y -> Q y) -> allOf Q ys.
Proof.
  induction 1 as [| x y xs ys Hxy _ IH]; intros HQ; [exact I |].
  split.
  - apply (HQ x y); [left; reflexivity | exact Hxy].
  - apply IH. intros x' y' Hin. apply HQ. right. exact Hin.
Qed.

Lemma readSlice_OK {D : Document} (json : Any) (key : string) (xs : list Any) :
  readSlice json key = OK xs <-> ToVal (Get json key) = Some xs.
Proof.
  unfold readSlice. destruct (ToVal (Get json key)) as [ys |].
  - split; intros [= ->]; reflexivity.
  - split; discriminate.
Qed.

Lemma readSlice_no_Fail {D : Document} (json : Any) (key : string) (err : error) :
  readSlice json key <> Fail err.
Proof. unfold readSlice. destruct (ToVal (Get json key)); discriminate. Qed.

Lemma tag_check (json : Any) (tag : Z) :
  negb (ToUint (Get json "type") =? tag) = false <-> ToUint (Get json "type") = tag.
Proof.
  destruct (Z.eqb_spec (ToUint (Get json "type")) tag); cbn [negb]; split;
    congruence.
Qed.

Section Bodies.
Context {F : Floats} {D : Document}.
Variable f : Any -> result Expression.

(** When each body succeeds, over any dispatcher [f]. *)
Lemma Body_NewDefinitionFromJSON_OK (json : Any) (id : ID) (e : Expression) :
  Body.NewDefinitionFromJSON f json = OK (mkDefinition id e) <->
  ToUint (Get json "type") = TypeDefinition /\
  NewIDFromJSON (Get json "id") = OK id /\
  f (Get json "expression") = OK e.
Proof.
  unfold Body.NewDefinitionFromJSON. rewrite <- tag_check.
  destruct (negb _); [split; [discriminate | intros [? _]; discriminate] |].
  destruct (NewIDFromJSON (Get json "id")) as [id' | |]; cbn [bind];
    try (split; [discriminate | intros (_ & ? & _); discriminate]).
  destruct (f (Get json "expression")) as [e' | |]; cbn [bind];
    try (split; [discriminate | intros (_ & _ & ?); discriminate]).
  split.
  - intros [= -> ->]. repeat split.
  - intros (_ & [= ->] & [= ->]). reflexivity.
Qed.

Lemma Body_NewModuleFromJSON_OK (json : Any) (name : string)
  (definitions : list Definition_) :
  Body.NewModuleFromJSON f json = OK (mkModule name definitions) <->
  ToUint (Get json "type") = TypeModule /\
  name = ToString (Get json "name") /\
  exists jsonDefinitions,
    ToVal (Get json "definitions") = Some jsonDefinitions /\
    Forall2 (fun x d => Body.NewDefinitionFromJSON f x = OK d)
      jsonDefinitions definitions.
Proof.
  unfold Body.NewModuleFromJSON. rewrite <- tag_check. cbv zeta.
  destruct (negb _); [split; [discriminate | intros [? _]; discriminate] |].
  unfold readSlice.
  destruct (ToVal (Get json "definitions")) as [xs |]; cbn [bind];
    [| split; [discriminate | intros (_ & _ & ? & ? & _); discriminate]].
  split.
  - destruct (forEach (Body.NewDefinitionFromJSON f) xs) as [ds | |] eqn:Hds;
      cbn [bind]; try discriminate.
    intros [= <- <-]. split; [reflexivity |]. split; [reflexivity |].
    exists xs. split; [reflexivity |]. apply forEach_OK, Hds.
  - intros (_ & -> & ys & [= <-] & Hall). apply forEach_OK in Hall.
    rewrite Hall. reflexivity.
Qed.

Lemma Body_NewLambdaFromJSON_OK (json : Any) (parameters : list ID)
  (e : Expression) :
  Body.NewLambdaFromJSON f json = OK (mkLambda parameters e) <->
  ToUint (Get json "type") = TypeLambda /\
  (exists jsonParameters,
     ToVal (Get json "parameters") = Some jsonParameters /\
     Forall2 (fun x p => NewIDFromJSON x = OK p) jsonParameters parameters) /\
  f (Get json "expression") = OK e.
Proof.
  unfold Body.NewLambdaFromJSON. rewrite <- tag_check.
  destruct (negb _); [split; [discriminate | intros [? _]; discriminate] |].
  unfold readSlice.
  destruct (ToVal (Get json "parameters")) as [xs |]; cbn [bind];
    [| split; [discriminate | intros (_ & (? & ? & _) & _); discriminate]].
  destruct (forEach NewIDFromJSON xs) as [ps | |] eqn:Hps; cbn [bind].
  - destruct (f (Get json "expression")) as [e' | |]; cbn [bind];
      try (split; [discriminate | intros (_ & _ & ?); discriminate]).
    split.
    + intros [= <- <-]. split; [reflexivity |]. split; [| reflexivity].
      exists xs. split; [reflexivity |]. apply forEach_OK, Hps.
    + intros (_ & (ys & [= <-] & Hall) & [= ->]).
      apply forEach_OK in Hall. rewrite Hps in Hall. injection Hall as ->.
      reflexivity.
  - split; [discriminate |].
    intros (_ & (ys & [= <-] & Hall) & _). apply forEach_OK in Hall.
    rewrite Hps in Hall. discriminate.
  - split; [discriminate |].
    intros (_ & (ys & [= <-] & Hall) & _). apply forEach_OK in Hall.
    rewrite Hps in Hall. discriminate.
Qed.

Lemma Body_NewCallFromJSON_OK (json : Any) (id : ID) (arguments : list Expression) :
  Body.NewCallFromJSON f json = OK (mkCall id arguments) <->
  ToUint (Get json "type") = TypeCall /\
  NewIDFromJSON (Get json "id") = OK id /\
  exists jsonArguments,
    ToVal (Get json "arguments") = Some jsonArguments /\
    Forall2 (fun x a => f x = OK a) jsonArguments arguments.
Proof.
  unfold Body.NewCallFromJSON. rewrite <- tag_check.
  destruct (negb _); [split; [discriminate | intros [? _]; discriminate] |].
  destruct (NewIDFromJSON (Get json "id")) as [id' | |]; cbn [bind];
    try (split; [discriminate | intros (_ & ? & _); discriminate]).
  unfold readSlice.
  destruct (ToVal (Get json "arguments")) as [xs |]; cbn [bind];
    [| split; [discriminate | intros (_ & _ & ? & ? & _); discriminate]].
  split.
  - destruct (forEach f xs) as [args | |] eqn:Hargs; cbn [bind]; try discriminate.
    intros [= <- <-]. split; [reflexivity |]. split; [reflexivity |].
    exists xs. split; [reflexivity |]. apply forEach_OK, Hargs.
  - intros (_ & [= ->] & ys & [= <-] & Hall). apply forEach_OK in Hall.
    rewrite Hall. reflexivity.
Qed.

Lemma Body_NewAnonymousCallFromJSON_OK (json : Any) (lambda : Lambda)
  (arguments : list Expression) :
  Body.NewAnonymousCallFromJSON f json = OK (mkAnonymousCall lambda arguments) <->
  ToUint (Get json "type") = TypeAnonymousCall /\
  Body.NewLambdaFromJSON f (Get json "lambda") = OK lambda /\
  exists jsonArguments,
    ToVal (Get json "arguments") = Some jsonArguments /\
    Forall2 (fun x a => f x = OK a) jsonArguments arguments.
Proof.
  unfold Body.NewAnonymousCallFromJSON. rewrite <- tag_check.
  destruct (negb _); [split; [discriminate | intros [? _]; discriminate] |].
  destruct (Body.NewLambdaFromJSON f (Get json "lambda")) as [l | |];
    cbn [bind];
    try (split; [discriminate | intros (_ & ? & _); discriminate]).
  unfold readSlice.
  destruct (ToVal (Get json "arguments")) as [xs |]; cbn [bind];
    [| split; [discriminate | intros (_ & _ & ? & ? & _); discriminate]].
  split.
  - destruct (forEach f xs) as [args | |] eqn:Hargs; cbn [bind]; try discriminate.
    intros [= <- <-]. split; [reflexivity |]. split; [reflexivity |].
    exists xs. split; [reflexivity |]. apply forEach_OK, Hargs.
  - intros (_ & [= ->] & ys & [= <-] & Hall). apply forEach_OK in Hall.
    rewrite Hall. reflexivity.
Qed.

End Bodies.

(** [ParseInt] at 32 bits, by cases on its argument. *)
Lemma ParseInt_cases (s : string) :
  (isDecimalText s = true /\ inInt32 (decimalValue s) /\
   ParseInt s 32 = (decimalValue s, None)) \/
  ((isDecimalText s = false \/ ~ inInt32 (decimalValue s)) /\
   exists v kind, ParseInt s 32 = (v, Some (NumError "ParseInt" s kind))).
Proof.
  destruct (isDecimalText s) eqn:Htext.
  - assert (Hdec : inInt32 (decimalValue s) \/ ~ inInt32 (decimalValue s)).
    { unfold inInt32. lia. }
    destruct Hdec as [Hin | Hout].
    + left. split; [reflexivity |]. split; [exact Hin |].
      apply ParseInt_accepts; assumption.
    + right. split; [right; exact Hout |]. apply ParseInt_rejects. right. exact Hout.
  - right. split; [left; reflexivity |]. apply ParseInt_rejects. left. exact Htext.
Qed.

Section LeafResults.
Context {F : Floats} {D : Document}.

Lemma NewInt32FromJSON_OK (json : Any) (v : Z) :
  NewInt32FromJSON json = OK (mkInt32 v) <->
  ToUint (Get json "type") = TypeInt32 /\
  isDecimalText (ToString (Get json "value")) = true /\
  inInt32 (decimalValue (ToString (Get json "value"))) /\
  v = decimalValue (ToString (Get json "value")).
Proof.
  unfold NewInt32FromJSON. rewrite <- tag_check.
  destruct (negb _); [split; [discriminate | intros [? _]; discriminate] |].
  destruct (ParseInt_cases (ToString (Get json "value")))
    as [(Htext & Hin & ->) | (Hbad & n & kind & ->)].
  - split.
    + intros [= <-]. split; [reflexivity |]. split; [exact Htext |].
      split; [exact Hin | reflexivity].
    + intros (_ & _ & _ & ->). reflexivity.
  - split; [discriminate |]. intros (_ & Htext & Hin & _).
    destruct Hbad as [Hbad | Hbad]; [congruence | contradiction].
Qed.

Lemma NewInt32FromJSON_Fail (json : Any) (err : error) :
  NewInt32FromJSON json = Fail err ->
  err = ErrInvalidJSON \/
  exists kind, err = NumError "ParseInt" (ToString (Get json "value")) kind.
Proof.
  unfold NewInt32FromJSON.
  destruct (negb _); [intros [= <-]; left; reflexivity |].
  destruct (ParseInt_cases (ToString (Get json "value")))
    as [(_ & _ & ->) | (_ & n & kind & ->)]; [discriminate |].
  intros [= <-]. right. exists kind. reflexivity.
Qed.

Lemma NewFloat64FromJSON_Fail (json : Any) (err : error) :
  NewFloat64FromJSON json = Fail err ->
  err = ErrInvalidJSON \/
  exists value, ParseFloat (ToString (Get json "value")) = (value, Some err).
Proof.
  unfold NewFloat64FromJSON.
  destruct (negb _); [intros [= <-]; left; reflexivity |].
  destruct (ParseFloat (ToString (Get json "value"))) as [value [e |]];
    [| discriminate].
  intros [= <-]. right. exists value. reflexivity.
Qed.

Lemma NewIDFromJSON_Fail (json : Any) (err : error) :
  NewIDFromJSON json = Fail err -> err = ErrInvalidJSON.
Proof.
  unfold NewIDFromJSON. destruct (negb _); [intros [= <-]; reflexivity | discriminate].
Qed.

Lemma NewIDFromJSON_OK (json : Any) (id : ID) :
  NewIDFromJSON json = OK id <->
  ToUint (Get json "type") = TypeID /\ id = mkID (ToString (Get json "value")).
Proof.
  unfold NewIDFromJSON. rewrite <- tag_check.
  destruct (negb _); [split; [discriminate | intros [? _]; discriminate] |].
  cbv zeta. split.
  - intros [= <-]. split; reflexivity.
  - intros [_ ->]. reflexivity.
Qed.

(** The leaf constructors return a value or an error on every input. *)
Lemma leaves_never_panic (json : Any) (msg : string) :
  NewNilFromJSON json <> Panic msg /\
  NewBooleanFromJSON json <> Panic msg /\
  NewInt32FromJSON json <> Panic msg /\
  NewFloat64FromJSON json <> Panic msg /\
  NewStringFromJSON json <> Panic msg /\
  NewIDFromJSON json <> Panic msg.
Proof.
  unfold NewNilFromJSON, NewBooleanFromJSON, NewInt32FromJSON, NewFloat64FromJSON,
    NewStringFromJSON, NewIDFromJSON.
  destruct (ParseInt (ToString (Get json "value")) 32) as [? [? |]];
  destruct (ParseFloat (ToString (Get json "value"))) as [? [? |]];
  repeat split;
    match goal with
    | |- (if ?c then _ else _) <> _ => destruct c; discriminate
    end.
Qed.

End LeafResults.

Section DispatchResults.
Context {F : Floats} {D : Document}.
Variable f : Any -> result Expression.

(** The dispatcher returns a node of a variant exactly when the
    constructor of that variant returns it. *)
Lemma dispatch_OK (json : Any) (e : Expression) :
  Body.dispatch f json = OK e <->
  match e with
  | EModule m => Body.NewModuleFromJSON f json = OK m
  | ENil n => NewNilFromJSON json = OK n
  | EBoolean b => NewBooleanFromJSON json = OK b
  | EInt32 i => NewInt32FromJSON json = OK i
  | EFloat64 x => NewFloat64FromJSON json = OK x
  | EString s => NewStringFromJSON json = OK s
  | EID i => NewIDFromJSON json = OK i
  | EDefinition d => Body.NewDefinitionFromJSON f json = OK d
  | ELambda l => Body.NewLambdaFromJSON f json = OK l
  | ECall c => Body.NewCallFromJSON f json = OK c
  | EAnonymousCall c => Body.NewAnonymousCallFromJSON f json = OK c
  end.
Proof.
  split.
  - unfold Body.dispatch, Body.asExpression. cbv zeta.
    repeat match goal with
           | |- context [?a =? ?b] =>
               destruct (Z.eqb_spec a b) as [_ | _];
               [ match goal with
                 | |- (bind ?c _) = _ -> _ =>
                     destruct c; cbn [bind]; try discriminate;
                     intros [= <-]; reflexivity
                 end
               | ]
           end.
    discriminate.
  - assert (Htag : forall (A : Type) (tag : Z) (r : result A) (x : A),
              (if negb (ToUint (Get json "type") =? tag) then Fail ErrInvalidJSON
               else r) = OK x ->
              ToUint (Get json "type") = tag).
    { intros A tag r x. destruct (Z.eqb_spec (ToUint (Get json "type")) tag);
        [intros _; assumption | discriminate]. }
    unfold Body.dispatch, Body.asExpression. cbv zeta.
    destruct e; intros H; pose proof H as H';
      [ unfold Body.NewModuleFromJSON in H'
      | unfold NewNilFromJSON in H'
      | unfold NewBooleanFromJSON in H'
      | unfold NewInt32FromJSON in H'
      | unfold NewFloat64FromJSON in H'
      | unfold NewStringFromJSON in H'
      | unfold NewIDFromJSON in H'
      | unfold Body.NewDefinitionFromJSON in H'
      | unfold Body.NewLambdaFromJSON in H'
      | unfold Body.NewCallFromJSON in H'
      | unfold Body.NewAnonymousCallFromJSON in H' ];
      apply Htag in H'; rewrite H'; cbn [Z.eqb Pos.eqb TypeModule TypeNil
        TypeBoolean TypeInt32 TypeFloat64 TypeString TypeID TypeDefinition
        TypeLambda TypeCall TypeAnonymousCall];
      rewrite H; reflexivity.
Qed.

End DispatchResults.

Section Invariants.
Context {F : Floats} {D : Document}.
Variable f : Any -> result Expression.

Lemma decoderError_sentinel : decoderError ErrInvalidJSON.
Proof. left. reflexivity. Qed.

(** The errors of a body are its own sentinel or those of its parts. *)
Hypothesis f_errors : forall x err, f x = Fail err -> decoderError err.

Lemma Body_NewDefinitionFromJSON_errors (json : Any) (err : error) :
  Body.NewDefinitionFromJSON f json = Fail err -> decoderError err.
Proof.
  unfold Body.NewDefinitionFromJSON.
  destruct (negb _); [intros [= <-]; apply decoderError_sentinel |].
  destruct (NewIDFromJSON (Get json "id")) as [id | e |] eqn:Hid; cbn [bind];
    try discriminate.
  - destruct (f (Get json "expression")) as [e' | e |] eqn:He; cbn [bind];
      try discriminate.
    intros [= <-]. eapply f_errors, He.
  - intros [= <-]. apply NewIDFromJSON_Fail in Hid as ->.
    apply decoderError_sentinel.
Qed.

Lemma Body_NewModuleFromJSON_errors (json : Any) (err : error) :
  Body.NewModuleFromJSON f json = Fail err -> decoderError err.
Proof.
  unfold Body.NewModuleFromJSON. cbv zeta.
  destruct (negb _); [intros [= <-]; apply decoderError_sentinel |].
  destruct (readSlice json "definitions") as [xs | e |] eqn:Hxs; cbn [bind];
    try discriminate.
  - destruct (forEach (Body.NewDefinitionFromJSON f) xs) as [ds | e |] eqn:Hds;
      cbn [bind]; try discriminate.
    intros [= <-]. destruct (forEach_Fail _ _ _ Hds) as (x & _ & Hx).
    eapply Body_NewDefinitionFromJSON_errors, Hx.
  - intros _. exfalso. eapply readSlice_no_Fail, Hxs.
Qed.

Lemma Body_NewLambdaFromJSON_errors (json : Any) (err : error) :
  Body.NewLambdaFromJSON f json = Fail err -> decoderError err.
Proof.
  unfold Body.NewLambdaFromJSON.
  destruct (negb _); [intros [= <-]; apply decoderError_sentinel |].
  destruct (readSlice json "parameters") as [xs | e |] eqn:Hxs; cbn [bind];
    try discriminate.
  - destruct (forEach NewIDFromJSON xs) as [ps | e |] eqn:Hps; cbn [bind];
      try discriminate.
    + destruct (f (Get json "expression")) as [e' | e |] eqn:He; cbn [bind];
        try discriminate.
      intros [= <-]. eapply f_errors, He.
    + intros [= <-]. destruct (forEach_Fail _ _ _ Hps) as (x & _ & Hx).
      apply NewIDFromJSON_Fail in Hx as ->. apply decoderError_sentinel.
  - intros _. exfalso. eapply readSlice_no_Fail, Hxs.
Qed.

Lemma Body_NewCallFromJSON_errors (json : Any) (err : error) :
  Body.NewCallFromJSON f json = Fail err -> decoderError err.
Proof.
  unfold Body.NewCallFromJSON.
  destruct (negb _); [intros [= <-]; apply decoderError_sentinel |].
  destruct (NewIDFromJSON (Get json "id")) as [id | e |] eqn:Hid; cbn [bind];
    try discriminate.
  - destruct (readSlice json "arguments") as [xs | e |] eqn:Hxs; cbn [bind];
      try discriminate.
    + destruct (forEach f xs) as [args | e |] eqn:Hargs; cbn [bind];
        try discriminate.
      intros [= <-]. destruct (forEach_Fail _ _ _ Hargs) as (x & _ & Hx).
      eapply f_errors, Hx.
    + intros _. exfalso. eapply readSlice_no_Fail, Hxs.
  - intros [= <-]. apply NewIDFromJSON_Fail in Hid as ->.
    apply decoderError_sentinel.
Qed.

Lemma Body_NewAnonymousCallFromJSON_errors (json : Any) (err : error) :
  Body.NewAnonymousCallFromJSON f json = Fail err -> decoderError err.
Proof.
  unfold Body.NewAnonymousCallFromJSON.
  destruct (negb _); [intros [= <-]; apply decoderError_sentinel |].
  destruct (Body.NewLambdaFromJSON f (Get json "lambda")) as [l | e |] eqn:Hl;
    cbn [bind]; try discriminate.
  - destruct (readSlice json "arguments") as [xs | e |] eqn:Hxs; cbn [bind];
      try discriminate.
    + destruct (forEach f xs) as [args | e |] eqn:Hargs; cbn [bind];
        try discriminate.
      intros [= <-]. destruct (forEach_Fail _ _ _ Hargs) as (x & _ & Hx).
      eapply f_errors, Hx.
    + intros _. exfalso. eapply readSlice_no_Fail, Hxs.
  - intros [= <-]. eapply Body_NewLambdaFromJSON_errors, Hl.
Qed.

Lemma dispatch_errors (json : Any) (err : error) :
  Body.dispatch f json = Fail err -> decoderError err.
Proof.
  assert (Hlift : forall (A : Type) (inj : A -> Expression) (r : result A),
            Body.asExpression inj r = Fail err -> r = Fail err).
  { intros A inj r. unfold Body.asExpression.
    destruct r; cbn [bind]; congruence. }
  unfold Body.dispatch. cbv zeta.
  repeat match goal with
         | |- context [?a =? ?b] => destruct (a =? b)
         end;
    try (intros [= <-]; apply decoderError_sentinel);
    intros H; apply Hlift in H.
  - eapply Body_NewModuleFromJSON_errors, H.
  - unfold NewNilFromJSON in H. destruct (negb _); [| discriminate].
    injection H as <-. apply decoderError_sentinel.
  - unfold NewBooleanFromJSON in H. destruct (negb _); [| discriminate].
    injection H as <-. apply decoderError_sentinel.
  - destruct (NewInt32FromJSON_Fail _ _ H) as [-> | [kind ->]].
    + apply decoderError_sentinel.
    + right. left. eexists _, _. reflexivity.
  - destruct (NewFloat64FromJSON_Fail _ _ H) as [-> | [value Hv]].
    + apply decoderError_sentinel.
    + right. right. eexists _, _. exact Hv.
  - unfold NewStringFromJSON in H. destruct (negb _); [| discriminate].
    injection H as <-. apply decoderError_sentinel.
  - apply NewIDFromJSON_Fail in H as ->. apply decoderError_sentinel.
  - eapply Body_NewDefinitionFromJSON_errors, H.
  - eapply Body_NewLambdaFromJSON_errors, H.
  - eapply Body_NewCallFromJSON_errors, H.
  - eapply Body_NewAnonymousCallFromJSON_errors, H.
Qed.

End Invariants.

Section Origins.
Context {F : Floats} {D : Document}.
Variable f : Any -> result Expression.

Lemma arisesIn_sentinel (json : Any) : arisesIn json ErrInvalidJSON.
Proof. left. reflexivity. Qed.

Lemma arisesIn_field (json : Any) (key : string) (err : error) :
  arisesIn (Get json key) err -> arisesIn json err.
Proof.
  intros [-> | (x & Hx & Herr)]; [left; reflexivity |].
  right. exists x. split; [eapply nested_field, Hx | exact Herr].
Qed.

Lemma arisesIn_element (json elem : Any) (key : string) (elems : list Any)
  (err : error) :
  readSlice json key = OK elems -> In elem elems ->
  arisesIn elem err -> arisesIn json err.
Proof.
  intros Hslice Hin [-> | (x & Hx & Herr)]; [left; reflexivity |].
  apply readSlice_OK in Hslice.
  right. exists x. split; [eapply nested_element; eassumption | exact Herr].
Qed.

Lemma NewInt32FromJSON_origin (json : Any) (err : error) :
  NewInt32FromJSON json = Fail err -> arisesIn json err.
Proof.
  unfold NewInt32FromJSON.
  destruct (Z.eqb_spec (ToUint (Get json "type")) TypeInt32) as [Htag | _];
    cbn [negb]; [| intros [= <-]; apply arisesIn_sentinel].
  destruct (ParseInt (ToString (Get json "value")) 32) as [n [e |]] eqn:Hparse;
    [| discriminate].
  intros [= <-]. right. exists json. split; [constructor |].
  left. split; [exact Htag |]. exists n. exact Hparse.
Qed.

Lemma NewFloat64FromJSON_origin (json : Any) (err : error) :
  NewFloat64FromJSON json = Fail err -> arisesIn json err.
Proof.
  unfold NewFloat64FromJSON.
  destruct (Z.eqb_spec (ToUint (Get json "type")) TypeFloat64) as [Htag | _];
    cbn [negb]; [| intros [= <-]; apply arisesIn_sentinel].
  destruct (ParseFloat (ToString (Get json "value"))) as [value [e |]] eqn:Hparse;
    [| discriminate].
  intros [= <-]. right. exists json. split; [constructor |].
  right. split; [exact Htag |]. exists value. exact Hparse.
Qed.

(** The error of a body is the sentinel or comes from one of its
    parts. *)
Hypothesis f_origin : forall x err, f x = Fail err -> arisesIn x err.

Lemma Body_NewDefinitionFromJSON_origin (json : Any) (err : error) :
  Body.NewDefinitionFromJSON f json = Fail err -> arisesIn json err.
Proof.
  unfold Body.NewDefinitionFromJSON.
  destruct (negb _); [intros [= <-]; apply arisesIn_sentinel |].
  destruct (NewIDFromJSON (Get json "id")) as [id | e |] eqn:Hid; cbn [bind];
    try discriminate.
  - destruct (f (Get json "expression")) as [e' | e |] eqn:He; cbn [bind];
      try discriminate.
    intros [= <-]. eapply arisesIn_field, f_origin, He.
  - intros [= <-]. apply NewIDFromJSON_Fail in Hid as ->.
    apply arisesIn_sentinel.
Qed.

Lemma Body_NewModuleFromJSON_origin (json : Any) (err : error) :
  Body.NewModuleFromJSON f json = Fail err -> arisesIn json err.
Proof.
  unfold Body.NewModuleFromJSON. cbv zeta.
  destruct (negb _); [intros [= <-]; apply arisesIn_sentinel |].
  destruct (readSlice json "definitions") as [xs | e |] eqn:Hxs; cbn [bind];
    try discriminate.
  - destruct (forEach (Body.NewDefinitionFromJSON f) xs) as [ds | e |] eqn:Hds;
      cbn [bind]; try discriminate.
    intros [= <-]. destruct (forEach_Fail _ _ _ Hds) as (x & Hin & Hx).
    eapply arisesIn_element; [exact Hxs | exact Hin |].
    eapply Body_NewDefinitionFromJSON_origin, Hx.
  - intros _. exfalso. eapply readSlice_no_Fail, Hxs.
Qed.

Lemma Body_NewLambdaFromJSON_origin (json : Any) (err : error) :
  Body.NewLambdaFromJSON f json = Fail err -> arisesIn json err.
Proof.
  unfold Body.NewLambdaFromJSON.
  destruct (negb _); [intros [= <-]; apply arisesIn_sentinel |].
  destruct (readSlice json "parameters") as [xs | e |] eqn:Hxs; cbn [bind];
    try discriminate.
  - destruct (forEach NewIDFromJSON xs) as [ps | e |] eqn:Hps; cbn [bind];
      try discriminate.
    + destruct (f (Get json "expression")) as [e' | e |] eqn:He; cbn [bind];
        try discriminate.
      intros [= <-]. eapply arisesIn_field, f_origin, He.
    + intros [= <-]. destruct (forEach_Fail _ _ _ Hps) as (x & _ & Hx).
      apply NewIDFromJSON_Fail in Hx as ->. apply arisesIn_sentinel.
  - intros _. exfalso. eapply readSlice_no_Fail, Hxs.
Qed.

Lemma Body_NewCallFromJSON_origin (json : Any) (err : error) :
  Body.NewCallFromJSON f json = Fail err -> arisesIn json err.
Proof.
  unfold Body.NewCallFromJSON.
  destruct (negb _); [intros [= <-]; apply arisesIn_sentinel |].
  destruct (NewIDFromJSON (Get json "id")) as [id | e |] eqn:Hid; cbn [bind];
    try discriminate.
  - destruct (readSlice json "arguments") as [xs | e |] eqn:Hxs; cbn [bind];
      try discriminate.
    + destruct (forEach f xs) as [args | e |] eqn:Hargs; cbn [bind];
        try discriminate.
      intros [= <-]. destruct (forEach_Fail _ _ _ Hargs) as (x & Hin & Hx).
      eapply arisesIn_element; [exact Hxs | exact Hin |].
      eapply f_origin, Hx.
    + intros _. exfalso. eapply readSlice_no_Fail, Hxs.
  - intros [= <-]. apply NewIDFromJSON_Fail in Hid as ->.
    apply arisesIn_sentinel.
Qed.

Lemma Body_NewAnonymousCallFromJSON_origin (json : Any) (err : error) :
  Body.NewAnonymousCallFromJSON f json = Fail err -> arisesIn json err.
Proof.
  unfold Body.NewAnonymousCallFromJSON.
  destruct (negb _); [intros [= <-]; apply arisesIn_sentinel |].
  destruct (Body.NewLambdaFromJSON f (Get json "lambda")) as [l | e |] eqn:Hl;
    cbn [bind]; try discriminate.
  - destruct (readSlice json "arguments") as [xs | e |] eqn:Hxs; cbn [bind];
      try discriminate.
    + destruct (forEach f xs) as [args | e |] eqn:Hargs; cbn [bind];
        try discriminate.
      intros [= <-]. destruct (forEach_Fail _ _ _ Hargs) as (x & Hin & Hx).
      eapply arisesIn_element; [exact Hxs | exact Hin |].
      eapply f_origin, Hx.
    + intros _. exfalso. eapply readSlice_no_Fail, Hxs.
  - intros [= <-]. eapply arisesIn_field, Body_NewLambdaFromJSON_origin, Hl.
Qed.

Lemma dispatch_origin (json : Any) (err : error) :
  Body.dispatch f json = Fail err -> arisesIn json err.
Proof.
  assert (Hlift : forall (A : Type) (inj : A -> Expression) (r : result A),
            Body.asExpression inj r = Fail err -> r = Fail err).
  { intros A inj r. unfold Body.asExpression.
    destruct r; cbn [bind]; congruence. }
  unfold Body.dispatch. cbv zeta.
  repeat match goal with
         | |- context [?a =? ?b] => destruct (a =? b)
         end;
    try (intros [= <-]; apply arisesIn_sentinel);
    intros H; apply Hlift in H.
  - eapply Body_NewModuleFromJSON_origin, H.
  - unfold NewNilFromJSON in H. destruct (negb _); [| discriminate].
    injection H as <-. apply arisesIn_sentinel.
  - unfold NewBooleanFromJSON in H. destruct (negb _); [| discriminate].
    injection H as <-. apply arisesIn_sentinel.
  - eapply NewInt32FromJSON_origin, H.
  - eapply NewFloat64FromJSON_origin, H.
  - unfold NewStringFromJSON in H. destruct (negb _); [| discriminate].
    injection H as <-. apply arisesIn_sentinel.
  - apply NewIDFromJSON_Fail in H as ->. apply arisesIn_sentinel.
  - eapply Body_NewDefinitionFromJSON_origin, H.
  - eapply Body_NewLambdaFromJSON_origin, H.
  - eapply Body_NewCallFromJSON_origin, H.
  - eapply Body_NewAnonymousCallFromJSON_origin, H.
Qed.

End Origins.

Section Int32Invariant.
Context {F : Floats} {D : Document}.
Variable f : Any -> result Expression.
Hypothesis f_fits : forall x e, f x = OK e -> int32sFit e.

Lemma Body_NewLambdaFromJSON_fits (json : Any) (l : Lambda) :
  Body.NewLambdaFromJSON f json = OK l -> int32sFitLambda l.
Proof.
  destruct l as [ps e]. intros H.
  apply Body_NewLambdaFromJSON_OK in H as (_ & _ & He).
  eapply f_fits, He.
Qed.

Lemma arguments_fit (xs : list Any) (args : list Expression) :
  Forall2 (fun x a => f x = OK a) xs args -> allOf int32sFit args.
Proof.
  intros H. apply (Forall2_allOf _ _ _ _ H).
  intros x a _ Hx. eapply f_fits, Hx.
Qed.

Lemma dispatch_fits (json : Any) (e : Expression) :
  Body.dispatch f json = OK e -> int32sFit e.
Proof.
  intros H. apply dispatch_OK in H.
  destruct e as [[name ds] | | | [v] | | | | [id e] | l | [id args] | [l args]];
    cbn [int32sFit int32sFitModule int32sFitDefinition int32sFitCall
         int32sFitAnonymousCall]; try exact I.
  - apply Body_NewModuleFromJSON_OK in H as (_ & _ & xs & _ & Hall).
    apply (Forall2_allOf _ _ _ _ Hall).
    intros x [id e] _ Hd. apply Body_NewDefinitionFromJSON_OK in Hd as (_ & _ & He).
    cbn [int32sFitDefinition]. eapply f_fits, He.
  - apply NewInt32FromJSON_OK in H as (_ & _ & Hin & ->). exact Hin.
  - apply Body_NewDefinitionFromJSON_OK in H as (_ & _ & He). eapply f_fits, He.
  - eapply Body_NewLambdaFromJSON_fits, H.
  - apply Body_NewCallFromJSON_OK in H as (_ & _ & xs & _ & Hall).
    eapply arguments_fit, Hall.
  - apply Body_NewAnonymousCallFromJSON_OK in H as (_ & Hl & xs & _ & Hall).
    split; [eapply Body_NewLambdaFromJSON_fits, Hl | eapply arguments_fit, Hall].
Qed.

End Int32Invariant.

Section WholeDecoder.
Context {F : Floats} {D : Document}.

Lemma decodeWithin_errors (fuel : nat) :
  forall json err, decodeWithin fuel json = Fail err -> decoderError err.
Proof.
  induction fuel as [| fuel IH]; intros json err; cbn [decodeWithin];
    [discriminate |].
  apply dispatch_errors. exact IH.
Qed.

Lemma decodeWithin_origin (fuel : nat) :
  forall json err, decodeWithin fuel json = Fail err -> arisesIn json err.
Proof.
  induction fuel as [| fuel IH]; intros json err; cbn [decodeWithin];
    [discriminate |].
  apply dispatch_origin. exact IH.
Qed.

Lemma decodeWithin_fits (fuel : nat) :
  forall json e, decodeWithin fuel json = OK e -> int32sFit e.
Proof.
  induction fuel as [| fuel IH]; intros json e; cbn [decodeWithin];
    [discriminate |].
  apply dispatch_fits. exact IH.
Qed.

End WholeDecoder.

End shape.

(** ** The specification's claims *)

Module claims.
Import strconv DecimalText strconvFacts utf8 utf8Facts jsoniter jsoniterFacts ast knot
  codec shape.

Local Abbreviation wire entries := (MarshalGet (VMap entries)).

Section Claims.
Context {F : Floats} {D : Document}.

(** C1 (the code departs from it).  The round trip of the test's own
    module, [Module{Name: "test"}], and of any module without
    definitions: the decoded module has the empty name, whatever name
    was encoded.  [codec.decode_encode] shows that nothing else is
    lost. *)
Theorem round_trip_empties_module_name (name : string) :
  NewExpressionFromJSON (wire (Expression_JSON (EModule (mkModule name [])))) =
    OK (EModule (mkModule "" [])).
Proof. apply (decode_encode (EModule (mkModule name []))); exact I. Qed.

(** C2 (the code departs from it).  The map built by [Module.JSON] has
    the keys ["type"] and ["definitions"] and no others, so the decoder
    finds no ["name"] field in it and reads the empty name. *)
Theorem Module_JSON_writes_no_name (m : Module_) :
  map fst (Module_JSON m) = ["type"; "definitions"] /\
  Get (wire (Module_JSON m)) "name" = invalidAny /\
  ToString (Get (wire (Module_JSON m)) "name") = "".
Proof. destruct m as [name ds]. repeat split. Qed.



(** C5.  An [Int32] is encoded as a string holding the decimal text of
    its value, with a minus sign when negative; decoding that encoding
    gives the same value; and a ["value"] string that is no decimal
    text, or whose value does not fit 32 bits, makes the decoder fail
    with the [*NumError] of [ParseInt]. *)
Theorem Int32_is_carried_as_decimal_text (v : Z) :
  inInt32 v ->
  Int32_JSON (mkInt32 v) =
    [("type", VInt TypeInt32); ("value", VString (FormatInt v))] /\
  isDecimalText (FormatInt v) = true /\
  decimalValue (FormatInt v) = v /\
  (v < 0 -> exists digits, FormatInt v = String "-" digits) /\
  NewInt32FromJSON (wire (Int32_JSON (mkInt32 v))) = OK (mkInt32 v) /\
  (forall json s,
      ToUint (Get json "type") = TypeInt32 ->
      Get json "value" = stringAny s ->
      isDecimalText s = false \/ ~ inInt32 (decimalValue s) ->
      exists kind, NewInt32FromJSON json = Fail (NumError "ParseInt" s kind)).
Proof.
  intros Hv.
  assert (Hwide : - 10 ^ 20 < v < 10 ^ 20).
  { unfold inInt32 in Hv. rewrite pow_2_31 in Hv.
    change (10 ^ 20) with 100000000000000000000. lia. }
  destruct (FormatInt_text v Hwide) as [Htext Hval].
  repeat split; try assumption.
  - apply FormatInt_sign.
  - apply NewInt32FromJSON_JSON, Hv.
  - intros json s Htag Hvalue Hbad. unfold NewInt32FromJSON.
    rewrite (tag_match json TypeInt32 Htag), Hvalue. cbn [ToString].
    destruct (ParseInt_rejects s Hbad) as (n & kind & ->).
    exists kind. reflexivity.
Qed.

(** C7.  A definition whose expression is an [Int32] with a ["value"]
    that is no decimal text: the [Int32] decode fails with a
    [*NumError], the decode of the definition fails with that error,
    and so does the decode of a module that holds the definition after
    definitions that decode. *)
Theorem malformed_Int32_fails_the_enclosing_decodes (definition : Any)
  (s : string) (id : ID) :
  ToUint (Get definition "type") = TypeDefinition ->
  NewIDFromJSON (Get definition "id") = OK id ->
  ToUint (Get (Get definition "expression") "type") = TypeInt32 ->
  Get (Get definition "expression") "value" = stringAny s ->
  isDecimalText s = false ->
  exists kind,
    let err := NumError "ParseInt" s kind in
    NewInt32FromJSON (Get definition "expression") = Fail err /\
    NewDefinitionFromJSON definition = Fail err /\
    NewExpressionFromJSON definition = Fail err /\
    forall module before after decoded,
      ToUint (Get module "type") = TypeModule ->
      Get module "definitions" = arrayLazyAny (before ++ definition :: after) ->
      forEach NewDefinitionFromJSON before = OK decoded ->
      NewModuleFromJSON module = Fail err /\
      NewExpressionFromJSON module = Fail err.
Proof.
  intros Htag Hid Hetag Hvalue Hbad.
  assert (Hint : exists kind,
            NewInt32FromJSON (Get definition "expression") =
              Fail (NumError "ParseInt" s kind)).
  { unfold NewInt32FromJSON. rewrite (tag_match _ TypeInt32 Hetag), Hvalue.
    cbn [ToString].
    destruct (ParseInt_rejects s (or_introl Hbad)) as (n & kind & ->).
    exists kind. reflexivity. }
  destruct Hint as [kind Hint]. exists kind. cbv zeta.
  assert (Hexpr : NewExpressionFromJSON (Get definition "expression") =
                  Fail (NumError "ParseInt" s kind)).
  { rewrite NewExpressionFromJSON_cases, Hetag, Hint. reflexivity. }
  assert (Hdef : NewDefinitionFromJSON definition = Fail (NumError "ParseInt" s kind)).
  { rewrite NewDefinitionFromJSON_eq, (tag_match _ TypeDefinition Htag), Hid, Hexpr.
    reflexivity. }
  split; [exact Hint |]. split; [exact Hdef |]. split.
  - rewrite NewExpressionFromJSON_cases, Htag, Hdef. reflexivity.
  - intros module before after decoded Hmtag Hdefs Hbefore.
    assert (Hmod : NewModuleFromJSON module = Fail (NumError "ParseInt" s kind)).
    { rewrite NewModuleFromJSON_eq, (tag_match _ TypeModule Hmtag). unfold readSlice.
      rewrite Hdefs. cbn [ToVal bind].
      rewrite (forEach_stops _ _ _ _ _ _ Hbefore Hdef). reflexivity. }
    split; [exact Hmod |].
    rewrite NewExpressionFromJSON_cases, Hmtag, Hmod. reflexivity.
Qed.

(** C8, amended.  A module whose ["definitions"] field is an empty
    sequence decodes to a module with an empty list of definitions. *)
Theorem empty_definitions_decode_to_an_empty_list (json : Any) :
  ToUint (Get json "type") = TypeModule ->
  Get json "definitions" = arrayLazyAny [] ->
  NewModuleFromJSON json = OK (mkModule (ToString (Get json "name")) []) /\
  NewExpressionFromJSON json =
    OK (EModule (mkModule (ToString (Get json "name")) [])).
Proof.
  intros Htag Hdefs.
  assert (Hm : NewModuleFromJSON json = OK (mkModule (ToString (Get json "name")) [])).
  { rewrite NewModuleFromJSON_eq, (tag_match _ TypeModule Htag). unfold readSlice.
    rewrite Hdefs. reflexivity. }
  split; [exact Hm |].
  rewrite NewExpressionFromJSON_cases, Htag, Hm. reflexivity.
Qed.

(** C9, amended.  With the right tag and the ["value"] field absent,
    the [Boolean], [String] and [ID] constructors succeed with [false]
    and the empty text.  With the right tag and the ["name"] field
    absent, the [Module] constructor returns a module exactly when
    [ToVal] yields the ["definitions"] and each of them decodes, and
    that module has the empty name. *)
Theorem absent_scalar_reads_as_zero_value (json : Any) :
  (ToUint (Get json "type") = TypeBoolean -> Get json "value" = invalidAny ->
   NewBooleanFromJSON json = OK (mkBoolean false)) /\
  (ToUint (Get json "type") = TypeString -> Get json "value" = invalidAny ->
   NewStringFromJSON json = OK (mkString "")) /\
  (ToUint (Get json "type") = TypeID -> Get json "value" = invalidAny ->
   NewIDFromJSON json = OK (mkID "")) /\
  (ToUint (Get json "type") = TypeModule -> Get json "name" = invalidAny ->
   forall m,
     NewModuleFromJSON json = OK m <->
     exists jsonDefinitions definitions,
       ToVal (Get json "definitions") = Some jsonDefinitions /\
       Forall2 (fun x d => NewDefinitionFromJSON x = OK d)
         jsonDefinitions definitions /\
       m = mkModule "" definitions).
Proof.
  split; [| split; [| split]]; intros Htag Habsent.
  - unfold NewBooleanFromJSON. rewrite (tag_match _ _ Htag), Habsent. reflexivity.
  - unfold NewStringFromJSON. rewrite (tag_match _ _ Htag), Habsent. reflexivity.
  - unfold NewIDFromJSON. rewrite (tag_match _ _ Htag), Habsent. reflexivity.
  - intros [name definitions]. unfold NewModuleFromJSON, NewDefinitionFromJSON.
    rewrite Body_NewModuleFromJSON_OK, Habsent. cbn [ToString]. split.
    + intros (_ & -> & xs & Hxs & Hall). exists xs, definitions.
      split; [exact Hxs |]. split; [exact Hall | reflexivity].
    + intros (xs & ds & Hxs & Hall & [= -> ->]).
      split; [exact Htag |]. split; [reflexivity |].
      exists xs. split; [exact Hxs | exact Hall].
Qed.

(** C10.  When the ["type"] field reads as 2, [NewNilFromJSON] returns
    the [Nil] value; and its result is the same on any two inputs with
    the same ["type"] field, whatever their other fields. *)
Theorem NewNilFromJSON_reads_only_the_tag (json : Any) :
  ToUint (Get json "type") = TypeNil ->
  NewNilFromJSON json = OK mkNil /\
  forall other, Get other "type" = Get json "type" ->
    NewNilFromJSON other = OK mkNil.
Proof.
  intros Htag. split.
  - unfold NewNilFromJSON. rewrite (tag_match _ _ Htag). reflexivity.
  - intros other Hsame. unfold NewNilFromJSON.
    rewrite Hsame, (tag_match _ _ Htag). reflexivity.
Qed.

(** X1.  Round trip: decoding the encoding of a tree gives the tree
    back with the names of its modules emptied, hence a value of the
    same variant with the same [Type()], which is what
    [TestNewExpressionFromJSON] checks of its fixtures.  The tree holds
    int32 values, floats whose text parses back, and text that is valid
    UTF-8. *)
Theorem round_trip_up_to_module_names (e : Expression) :
  wellFormed e -> validText e ->
  NewExpressionFromJSON (wire (Expression_JSON e)) = OK (withoutModuleNames e) /\
  Type_ (withoutModuleNames e) = Type_ e.
Proof.
  intros Hwf Hvt. split.
  - apply decode_encode; assumption.
  - apply Type_withoutModuleNames.
Qed.

(** X2.  The variant that the dispatcher returns is the one of the tag
    it read. *)
Theorem decoded_variant_matches_tag (json : Any) (e : Expression) :
  NewExpressionFromJSON json = OK e ->
  Type_ e = ToUint (Get json "type").
Proof.
  rewrite NewExpressionFromJSON_cases. cbv zeta. unfold Body.asExpression.
  repeat match goal with
         | |- context [?a =? ?b] =>
             destruct (Z.eqb_spec a b) as [Heq | _];
             [ match goal with
               | |- (bind ?c _) = _ -> _ =>
                   destruct c; cbn [bind]; intros [= <-]; symmetry; exact Heq
               end
             | ]
         end.
  discriminate.
Qed.

(** X3.  An input that is no object is rejected by the dispatcher: it
    has no ["type"] field. *)
Theorem dispatcher_rejects_non_objects (json : Any) :
  (forall fields, json <> objectLazyAny fields) ->
  NewExpressionFromJSON json = Fail ErrInvalidJSON.
Proof.
  intros Hno. apply NewExpressionFromJSON_default.
  rewrite (Get_not_object json "type" Hno). cbn [ToUint]. lia.
Qed.

End Claims.

(** *** The claims at concrete inputs *)

Local Abbreviation decode := (@NewExpressionFromJSON exampleFloats exampleDocument).





(** C5: the test's [Int32{Value: -42}]. *)
Lemma Int32_minus_42_round_trip :
  inInt32 (- 42) /\
  FormatInt (- 42) = "-42" /\
  @NewInt32FromJSON exampleDocument (wire (Int32_JSON (mkInt32 (- 42)))) =
    OK (mkInt32 (- 42)).
Proof.
  assert (H : inInt32 (- 42)).
  { unfold inInt32. rewrite pow_2_31. lia. }
  split; [exact H |]. split; [reflexivity |].
  apply (Int32_is_carried_as_decimal_text (D := exampleDocument) (- 42) H).
Defined.

(** C7: a definition holding [Int32] text "forty-two", and a module
    holding that definition after a sound one. *)
Lemma malformed_definition_fails :
  ToUint (Get malformedDefinition "type") = TypeDefinition /\
  @NewIDFromJSON exampleDocument (Get malformedDefinition "id") = OK (mkID "x") /\
  ToUint (Get (Get malformedDefinition "expression") "type") = TypeInt32 /\
  Get (Get malformedDefinition "expression") "value" = stringAny "forty-two" /\
  isDecimalText "forty-two" = false /\
  exists kind,
    @NewDefinitionFromJSON exampleFloats exampleDocument malformedDefinition =
      Fail (NumError "ParseInt" "forty-two" kind) /\
    @NewModuleFromJSON exampleFloats exampleDocument moduleWithMalformedDefinition =
      Fail (NumError "ParseInt" "forty-two" kind).
Proof.
  repeat (split; [reflexivity |]).
  destruct (malformed_Int32_fails_the_enclosing_decodes
              (F := exampleFloats) (D := exampleDocument)
              malformedDefinition "forty-two" (mkID "x")
              eq_refl eq_refl eq_refl eq_refl eq_refl)
    as (kind & _ & Hdef & _ & Hmod).
  exists kind. split; [exact Hdef |].
  apply (Hmod moduleWithMalformedDefinition [soundDefinition] []
           [mkDefinition (mkID "y") (ENil mkNil)]); reflexivity.
Defined.

(** C8, as stated, fails: with no ["definitions"] field the decoder
    does not return a module; [ToVal] panics. *)
Lemma absent_definitions_panic :
  Get moduleWithoutDefinitions "definitions" = invalidAny /\
  @NewModuleFromJSON exampleFloats exampleDocument moduleWithoutDefinitions =
    Panic "not implemented".
Proof. split; reflexivity. Qed.

(** C8: a module with an empty ["definitions"] sequence. *)
Lemma empty_definitions_decode :
  ToUint (Get moduleWithoutName "type") = TypeModule /\
  Get moduleWithoutName "definitions" = arrayLazyAny [] /\
  @NewModuleFromJSON exampleFloats exampleDocument moduleWithoutName =
    OK (mkModule "" []).
Proof.
  split; [reflexivity |]. split; [reflexivity |].
  apply (empty_definitions_decode_to_an_empty_list
           (F := exampleFloats) (D := exampleDocument)
           moduleWithoutName eq_refl eq_refl).
Defined.

(** C9, as stated, fails: with the tag of a module and no ["name"]
    field, and no ["definitions"] either, the constructor does not
    succeed; [ToVal] panics. *)
Lemma tag_only_module_panics :
  ToUint (Get moduleWithTagOnly "type") = TypeModule /\
  Get moduleWithTagOnly "name" = invalidAny /\
  @NewModuleFromJSON exampleFloats exampleDocument moduleWithTagOnly =
    Panic "not implemented".
Proof. repeat split. Qed.

(** C9: inputs that hold nothing but the tag (and, for the module, its
    definitions). *)
Lemma tag_only_inputs_decode :
  @NewBooleanFromJSON exampleDocument booleanWithoutValue = OK (mkBoolean false) /\
  @NewStringFromJSON exampleDocument stringWithoutValue = OK (mkString "") /\
  @NewIDFromJSON exampleDocument idWithoutValue = OK (mkID "") /\
  @NewModuleFromJSON exampleFloats exampleDocument moduleWithoutName =
    OK (mkModule "" []).
Proof.
  split; [| split; [| split]].
  - apply (absent_scalar_reads_as_zero_value
             (F := exampleFloats) (D := exampleDocument) booleanWithoutValue);
      reflexivity.
  - apply (absent_scalar_reads_as_zero_value
             (F := exampleFloats) (D := exampleDocument) stringWithoutValue);
      reflexivity.
  - apply (absent_scalar_reads_as_zero_value
             (F := exampleFloats) (D := exampleDocument) idWithoutValue);
      reflexivity.
  - apply (proj2 (proj2 (proj2
             (absent_scalar_reads_as_zero_value
                (F := exampleFloats) (D := exampleDocument) moduleWithoutName)))
             eq_refl eq_refl (mkModule "" [])).
    exists [], []. split; [reflexivity |]. split; [constructor | reflexivity].
Defined.

(** C10: a [Nil] input with other fields. *)
Lemma Nil_with_extras_decodes :
  ToUint (Get nilWithExtras "type") = TypeNil /\
  NewNilFromJSON nilWithExtras = OK mkNil.
Proof.
  split; [reflexivity |].
  apply (proj1 (NewNilFromJSON_reads_only_the_tag nilWithExtras eq_refl)).
Defined.

(** X1: the last fixture of the test. *)
Lemma anonymous_call_round_trip :
  wellFormed anonymousCallFixture /\
  validText anonymousCallFixture /\
  decode (wire (Expression_JSON anonymousCallFixture)) = OK anonymousCallFixture.
Proof.
  assert (H : wellFormed anonymousCallFixture).
  { simpl. split; [exact I |]. split; exact I. }
  assert (Hvt : validText anonymousCallFixture).
  { repeat apply conj; try exact I; reflexivity. }
  split; [exact H |]. split; [exact Hvt |].
  apply (round_trip_up_to_module_names (D := exampleDocument)
           anonymousCallFixture H Hvt).
Defined.

(** X2: an input with tag 2 decodes to a [Nil]. *)
Lemma Nil_input_gives_a_Nil :
  decode nilWithExtras = OK (ENil mkNil) /\
  Type_ (@ENil exampleFloats mkNil) = ToUint (Get nilWithExtras "type").
Proof.
  assert (H : decode nilWithExtras = OK (ENil mkNil)) by reflexivity.
  split; [exact H |].
  apply (decoded_variant_matches_tag (D := exampleDocument) nilWithExtras _ H).
Defined.

(** X3: an array is no expression. *)
Lemma array_is_rejected :
  (forall fields, arrayLazyAny [nilAny] <> objectLazyAny fields) /\
  decode (arrayLazyAny [nilAny]) = Fail ErrInvalidJSON.
Proof.
  assert (H : forall fields, arrayLazyAny [nilAny] <> objectLazyAny fields).
  { intros fields Heq. discriminate Heq. }
  split; [exact H |].
  apply (dispatcher_rejects_non_objects
           (F := exampleFloats) (D := exampleDocument) (arrayLazyAny [nilAny]) H).
Defined.

End claims.

(** ** Further properties of the codec *)

Module coverage.
Import strconv DecimalText strconvFacts utf8 utf8Facts jsoniter jsoniterFacts ast knot
  codec shape.

Local Abbreviation wire entries := (MarshalGet (VMap entries)).

Lemma map_map_same {A B : Type} (g : A -> B) (h : A -> A) (xs : list A) :
  Forall (fun x => g (h x) = g x) xs -> map g (map h xs) = map g xs.
Proof.
  induction 1 as [| x rest Hx _ IH]; [reflexivity |].
  cbn [map]. rewrite Hx, IH. reflexivity.
Qed.

Section Encoder.
Context {F : Floats}.

(** The encoder does not look at the names of modules. *)
Lemma Expression_JSON_withoutModuleNames (e : Expression) :
  Expression_JSON (withoutModuleNames e) = Expression_JSON e.
Proof.
  revert e.
  apply (Expression_nodes_ind
    (fun e => Expression_JSON (withoutModuleNames e) = Expression_JSON e)
    (fun m => Module_JSON (withoutModuleNamesModule m) = Module_JSON m)
    (fun d => Definition_JSON (withoutModuleNamesDefinition d) = Definition_JSON d)
    (fun l => Lambda_JSON (withoutModuleNamesLambda l) = Lambda_JSON l)
    (fun c => Call_JSON (withoutModuleNamesCall c) = Call_JSON c)
    (fun c => AnonymousCall_JSON (withoutModuleNamesAnonymousCall c) =
              AnonymousCall_JSON c));
    try (intros; reflexivity); try (intros x IH; exact IH).
  - intros name ds IH. cbn [withoutModuleNamesModule Module_JSON]. cbv zeta.
    rewrite (map_map_same (fun d => VMap (Definition_JSON d))
               withoutModuleNamesDefinition ds); [reflexivity |].
    eapply Forall_impl; [| exact IH]. cbv beta. intros d ->. reflexivity.
  - intros i e IH. cbn [withoutModuleNamesDefinition Definition_JSON].
    rewrite IH. reflexivity.
  - intros ps e IH. cbn [withoutModuleNamesLambda Lambda_JSON]. cbv zeta.
    rewrite IH. reflexivity.
  - intros i args IH. cbn [withoutModuleNamesCall Call_JSON]. cbv zeta.
    rewrite (map_map_same (fun a => VMap (Expression_JSON a))
               withoutModuleNames args); [reflexivity |].
    eapply Forall_impl; [| exact IH]. cbv beta. intros a ->. reflexivity.
  - intros l args IHl IH.
    cbn [withoutModuleNamesAnonymousCall AnonymousCall_JSON]. cbv zeta.
    rewrite IHl.
    rewrite (map_map_same (fun a => VMap (Expression_JSON a))
               withoutModuleNames args); [reflexivity |].
    eapply Forall_impl; [| exact IH]. cbv beta. intros a ->. reflexivity.
Qed.

Lemma Expression_JSON_head (e : Expression) :
  exists rest, Expression_JSON e = ("type", VInt (Type_ e)) :: rest.
Proof.
  destruct e as [[] | [] | [] | [] | [] | [] | [] | [] | [] | [] | []];
    eexists; reflexivity.
Qed.

Lemma Expression_JSON_Type (e1 e2 : Expression) :
  Expression_JSON e1 = Expression_JSON e2 -> Type_ e1 = Type_ e2.
Proof.
  destruct (Expression_JSON_head e1) as [rest1 ->].
  destruct (Expression_JSON_head e2) as [rest2 ->].
  intros [= Heq _]. exact Heq.
Qed.

Lemma FormatInt_injective (v1 v2 : Z) :
  inInt32 v1 -> inInt32 v2 -> FormatInt v1 = FormatInt v2 -> v1 = v2.
Proof.
  intros H1 H2 Heq. pose proof (ParseInt_FormatInt v1 H1) as P1.
  rewrite Heq, (ParseInt_FormatInt v2 H2) in P1. congruence.
Qed.

Lemma ID_JSON_injective (i1 i2 : ID) : ID_JSON i1 = ID_JSON i2 -> i1 = i2.
Proof. destruct i1, i2. cbn [ID_JSON]. intros [= ->]. reflexivity. Qed.

Lemma IDs_JSON_injective (ps1 : list ID) :
  forall ps2,
    map (fun p => VMap (ID_JSON p)) ps1 = map (fun p => VMap (ID_JSON p)) ps2 ->
    ps1 = ps2.
Proof.
  induction ps1 as [| p1 rest1 IH]; intros [| p2 rest2]; cbn [map];
    try discriminate; [reflexivity |].
  intros [= Hp Hrest]. rewrite (ID_JSON_injective _ _ Hp), (IH _ Hrest).
  reflexivity.
Qed.

Lemma nodes_JSON_injective {A B : Type} (json : A -> list (string * GoValue))
  (g : A -> B) (P : A -> Prop) (xs : list A) :
  Forall (fun x => P x -> forall y, P y -> json x = json y -> g x = g y) xs ->
  allOf P xs ->
  forall ys, allOf P ys ->
    map (fun x => VMap (json x)) xs = map (fun x => VMap (json x)) ys ->
    map g xs = map g ys.
Proof.
  induction 1 as [| x rest Hx _ IH]; intros HP [| y ys] HQ; cbn [map];
    try discriminate; [reflexivity |].
  apply allOf_cons in HP as [HPx HP]. apply allOf_cons in HQ as [HQy HQ].
  intros [= Hhead Htail].
  rewrite (Hx HPx y HQy Hhead), (IH HP ys HQ Htail). reflexivity.
Qed.

(** The encoder loses nothing but the names of modules: two trees with
    the same encoding differ in those names at most. *)
Lemma Expression_JSON_injective (e1 : Expression) :
  wellFormed e1 -> forall e2, wellFormed e2 ->
  Expression_JSON e1 = Expression_JSON e2 ->
  withoutModuleNames e1 = withoutModuleNames e2.
Proof.
  revert e1.
  apply (Expression_nodes_ind
    (fun e1 => wellFormed e1 -> forall e2, wellFormed e2 ->
       Expression_JSON e1 = Expression_JSON e2 ->
       withoutModuleNames e1 = withoutModuleNames e2)
    (fun m1 => wellFormedModule m1 -> forall m2, wellFormedModule m2 ->
       Module_JSON m1 = Module_JSON m2 ->
       withoutModuleNamesModule m1 = withoutModuleNamesModule m2)
    (fun d1 => wellFormedDefinition d1 -> forall d2, wellFormedDefinition d2 ->
       Definition_JSON d1 = Definition_JSON d2 ->
       withoutModuleNamesDefinition d1 = withoutModuleNamesDefinition d2)
    (fun l1 => wellFormedLambda l1 -> forall l2, wellFormedLambda l2 ->
       Lambda_JSON l1 = Lambda_JSON l2 ->
       withoutModuleNamesLambda l1 = withoutModuleNamesLambda l2)
    (fun c1 => wellFormedCall c1 -> forall c2, wellFormedCall c2 ->
       Call_JSON c1 = Call_JSON c2 ->
       withoutModuleNamesCall c1 = withoutModuleNamesCall c2)
    (fun c1 => wellFormedAnonymousCall c1 ->
       forall c2, wellFormedAnonymousCall c2 ->
       AnonymousCall_JSON c1 = AnonymousCall_JSON c2 ->
       withoutModuleNamesAnonymousCall c1 = withoutModuleNamesAnonymousCall c2)).
  - intros m1 IH Hwf1 e2 Hwf2 Heq.
    pose proof (Expression_JSON_Type _ _ Heq) as Ht.
    destruct e2 as [m2 | | | | | | | | | |]; cbv in Ht; try discriminate Ht.
    cbn [withoutModuleNames]. f_equal. exact (IH Hwf1 m2 Hwf2 Heq).
  - intros [] _ e2 _ Heq.
    pose proof (Expression_JSON_Type _ _ Heq) as Ht.
    destruct e2 as [| [] | | | | | | | | |]; cbv in Ht; try discriminate Ht.
    reflexivity.
  - intros [b1] _ e2 _ Heq.
    pose proof (Expression_JSON_Type _ _ Heq) as Ht.
    destruct e2 as [| | [b2] | | | | | | | |]; cbv in Ht; try discriminate Ht.
    cbn [Expression_JSON Boolean_JSON] in Heq. injection Heq as ->. reflexivity.
  - intros [v1] Hwf1 e2 Hwf2 Heq.
    pose proof (Expression_JSON_Type _ _ Heq) as Ht.
    destruct e2 as [| | | [v2] | | | | | | |]; cbv in Ht; try discriminate Ht.
    cbn [Expression_JSON Int32_JSON] in Heq. injection Heq as Hv.
    rewrite (FormatInt_injective v1 v2 Hwf1 Hwf2 Hv). reflexivity.
  - intros [x1] Hwf1 e2 Hwf2 Heq.
    pose proof (Expression_JSON_Type _ _ Heq) as Ht.
    destruct e2 as [| | | | [x2] | | | | | |]; cbv in Ht; try discriminate Ht.
    cbn [Expression_JSON Float64_JSON] in Heq. injection Heq as Hx.
    cbn [wellFormed] in Hwf1, Hwf2. rewrite Hx, Hwf2 in Hwf1.
    injection Hwf1 as ->. reflexivity.
  - intros [s1] _ e2 _ Heq.
    pose proof (Expression_JSON_Type _ _ Heq) as Ht.
    destruct e2 as [| | | | | [s2] | | | | |]; cbv in Ht; try discriminate Ht.
    cbn [Expression_JSON String_JSON] in Heq. injection Heq as ->. reflexivity.
  - intros i1 _ e2 _ Heq.
    pose proof (Expression_JSON_Type _ _ Heq) as Ht.
    destruct e2 as [| | | | | | i2 | | | |]; cbv in Ht; try discriminate Ht.
    cbn [withoutModuleNames]. f_equal. apply ID_JSON_injective. exact Heq.
  - intros d1 IH Hwf1 e2 Hwf2 Heq.
    pose proof (Expression_JSON_Type _ _ Heq) as Ht.
    destruct e2 as [| | | | | | | d2 | | |]; cbv in Ht; try discriminate Ht.
    cbn [withoutModuleNames]. f_equal. exact (IH Hwf1 d2 Hwf2 Heq).
  - intros l1 IH Hwf1 e2 Hwf2 Heq.
    pose proof (Expression_JSON_Type _ _ Heq) as Ht.
    destruct e2 as [| | | | | | | | l2 | |]; cbv in Ht; try discriminate Ht.
    cbn [withoutModuleNames]. f_equal. exact (IH Hwf1 l2 Hwf2 Heq).
  - intros c1 IH Hwf1 e2 Hwf2 Heq.
    pose proof (Expression_JSON_Type _ _ Heq) as Ht.
    destruct e2 as [| | | | | | | | | c2 |]; cbv in Ht; try discriminate Ht.
    cbn [withoutModuleNames]. f_equal. exact (IH Hwf1 c2 Hwf2 Heq).
  - intros c1 IH Hwf1 e2 Hwf2 Heq.
    pose proof (Expression_JSON_Type _ _ Heq) as Ht.
    destruct e2 as [| | | | | | | | | | c2]; cbv in Ht; try discriminate Ht.
    cbn [withoutModuleNames]. f_equal. exact (IH Hwf1 c2 Hwf2 Heq).
  - (* mkModule *)
    intros name1 ds1 IH Hwf1 [name2 ds2] Hwf2 Heq.
    cbn [Module_JSON] in Heq. cbv zeta in Heq. injection Heq as Hds.
    cbn [withoutModuleNamesModule]. f_equal.
    exact (nodes_JSON_injective Definition_JSON withoutModuleNamesDefinition
             wellFormedDefinition ds1 IH Hwf1 ds2 Hwf2 Hds).
  - (* mkDefinition *)
    intros i1 e1 IH Hwf1 [i2 e2] Hwf2 Heq.
    cbn [Definition_JSON] in Heq. injection Heq as Hid He.
    cbn [withoutModuleNamesDefinition].
    rewrite (ID_JSON_injective _ _ Hid), (IH Hwf1 e2 Hwf2 He). reflexivity.
  - (* mkLambda *)
    intros ps1 e1 IH Hwf1 [ps2 e2] Hwf2 Heq.
    cbn [Lambda_JSON] in Heq. cbv zeta in Heq. injection Heq as Hps He.
    cbn [withoutModuleNamesLambda].
    rewrite (IDs_JSON_injective _ _ Hps), (IH Hwf1 e2 Hwf2 He). reflexivity.
  - (* mkCall *)
    intros i1 args1 IH Hwf1 [i2 args2] Hwf2 Heq.
    cbn [Call_JSON] in Heq. cbv zeta in Heq. injection Heq as Hid Hargs.
    cbn [withoutModuleNamesCall].
    rewrite (ID_JSON_injective _ _ Hid).
    rewrite (nodes_JSON_injective Expression_JSON withoutModuleNames
               wellFormed args1 IH Hwf1 args2 Hwf2 Hargs).
    reflexivity.
  - (* mkAnonymousCall *)
    intros l1 args1 IHl IH [Hwfl1 Hwf1] [l2 args2] [Hwfl2 Hwf2] Heq.
    cbn [AnonymousCall_JSON] in Heq. cbv zeta in Heq. injection Heq as Hl Hargs.
    cbn [withoutModuleNamesAnonymousCall].
    rewrite (IHl Hwfl1 l2 Hwfl2 Hl).
    rewrite (nodes_JSON_injective Expression_JSON withoutModuleNames
               wellFormed args1 IH Hwf1 args2 Hwf2 Hargs).
    reflexivity.
Qed.

End Encoder.

Section Frame.
Context {F : Floats} {D : Document}.

(** Two inputs that [Get] cannot tell apart on the keys the decoder
    reads are decoded alike. *)
Lemma NewExpressionFromJSON_frame (json1 json2 : Any) :
  (forall key, In key readKeys -> Get json1 key = Get json2 key) ->
  NewExpressionFromJSON json1 = NewExpressionFromJSON json2.
Proof.
  intros Hk.
  assert (H1 : Get json1 "type" = Get json2 "type") by (apply Hk; cbn; tauto).
  assert (H2 : Get json1 "name" = Get json2 "name") by (apply Hk; cbn; tauto).
  assert (H3 : Get json1 "definitions" = Get json2 "definitions")
    by (apply Hk; cbn; tauto).
  assert (H4 : Get json1 "value" = Get json2 "value") by (apply Hk; cbn; tauto).
  assert (H5 : Get json1 "id" = Get json2 "id") by (apply Hk; cbn; tauto).
  assert (H6 : Get json1 "expression" = Get json2 "expression")
    by (apply Hk; cbn; tauto).
  assert (H7 : Get json1 "parameters" = Get json2 "parameters")
    by (apply Hk; cbn; tauto).
  assert (H8 : Get json1 "lambda" = Get json2 "lambda") by (apply Hk; cbn; tauto).
  assert (H9 : Get json1 "arguments" = Get json2 "arguments")
    by (apply Hk; cbn; tauto).
  rewrite !NewExpressionFromJSON_cases. cbv zeta.
  rewrite !NewModuleFromJSON_eq, !NewDefinitionFromJSON_eq, !NewLambdaFromJSON_eq,
    !NewCallFromJSON_eq, !NewAnonymousCallFromJSON_eq.
  unfold NewNilFromJSON, NewBooleanFromJSON, NewInt32FromJSON, NewFloat64FromJSON,
    NewStringFromJSON, NewIDFromJSON, readSlice. cbv zeta.
  rewrite H1, H2, H3, H4, H5, H6, H7, H8, H9. reflexivity.
Qed.

End Frame.

Section NoPanic.
Context {F : Floats} {D : Document}.

Lemma asExpression_Panic {A : Type} (inj : A -> Expression) (r : result A)
  (msg : string) :
  Body.asExpression inj r = Panic msg -> r = Panic msg.
Proof. unfold Body.asExpression. destruct r; cbn [bind]; congruence. Qed.

Lemma forEach_IDs_never_panic (xs : list Any) (msg : string) :
  forEach NewIDFromJSON xs <> Panic msg.
Proof.
  intros H. destruct (forEach_Panic _ _ _ H) as (x & _ & Hx).
  apply (leaves_never_panic x msg) in Hx. exact Hx.
Qed.

Lemma forEach_nodes_never_panic {A B : Type} (json : A -> list (string * GoValue))
  (dec : Any -> result B) (xs : list A) (msg : string) :
  Forall (fun x => forall msg, dec (wire (json x)) <> Panic msg) xs ->
  forEach dec (map MarshalGet (map (fun x => VMap (json x)) xs)) <> Panic msg.
Proof.
  intros Hall H. destruct (forEach_Panic _ _ _ H) as (y & Hin & Hy).
  rewrite map_map in Hin. apply in_map_iff in Hin as (x & <- & Hx).
  rewrite Forall_forall in Hall. exact (Hall x Hx msg Hy).
Qed.

(** Decoding what the encoder wrote never panics: the encoder writes
    every sequence, an empty one included. *)
Lemma decode_encode_never_panics (e : Expression) :
  forall msg, NewExpressionFromJSON (wire (Expression_JSON e)) <> Panic msg.
Proof.
  revert e.
  apply (Expression_nodes_ind
    (fun e => forall msg,
       NewExpressionFromJSON (wire (Expression_JSON e)) <> Panic msg)
    (fun m => forall msg, NewModuleFromJSON (wire (Module_JSON m)) <> Panic msg)
    (fun d => forall msg,
       NewDefinitionFromJSON (wire (Definition_JSON d)) <> Panic msg)
    (fun l => forall msg, NewLambdaFromJSON (wire (Lambda_JSON l)) <> Panic msg)
    (fun c => forall msg, NewCallFromJSON (wire (Call_JSON c)) <> Panic msg)
    (fun c => forall msg,
       NewAnonymousCallFromJSON (wire (AnonymousCall_JSON c)) <> Panic msg)).
  - intros [name ds] IH msg H. rewrite NewExpressionFromJSON_cases in H.
    change (ToUint (Get (wire (Expression_JSON (EModule (mkModule name ds)))) "type"))
      with TypeModule in H.
    apply asExpression_Panic in H. exact (IH msg H).
  - intros [] msg H. rewrite NewExpressionFromJSON_cases in H.
    apply asExpression_Panic in H. exact (proj1 (leaves_never_panic _ msg) H).
  - intros [b] msg H. rewrite NewExpressionFromJSON_cases in H.
    apply asExpression_Panic in H.
    exact (proj1 (proj2 (leaves_never_panic _ msg)) H).
  - intros [v] msg H. rewrite NewExpressionFromJSON_cases in H.
    apply asExpression_Panic in H.
    exact (proj1 (proj2 (proj2 (leaves_never_panic _ msg))) H).
  - intros [v] msg H. rewrite NewExpressionFromJSON_cases in H.
    apply asExpression_Panic in H.
    exact (proj1 (proj2 (proj2 (proj2 (leaves_never_panic _ msg)))) H).
  - intros [s] msg H. rewrite NewExpressionFromJSON_cases in H.
    apply asExpression_Panic in H.
    exact (proj1 (proj2 (proj2 (proj2 (proj2 (leaves_never_panic _ msg))))) H).
  - intros [s] msg H. rewrite NewExpressionFromJSON_cases in H.
    apply asExpression_Panic in H.
    exact (proj2 (proj2 (proj2 (proj2 (proj2 (leaves_never_panic _ msg))))) H).
  - intros [i e] IH msg H. rewrite NewExpressionFromJSON_cases in H.
    apply asExpression_Panic in H. exact (IH msg H).
  - intros [ps e] IH msg H. rewrite NewExpressionFromJSON_cases in H.
    apply asExpression_Panic in H. exact (IH msg H).
  - intros [i args] IH msg H. rewrite NewExpressionFromJSON_cases in H.
    apply asExpression_Panic in H. exact (IH msg H).
  - intros [l args] IH msg H. rewrite NewExpressionFromJSON_cases in H.
    apply asExpression_Panic in H. exact (IH msg H).
  - (* mkModule *)
    intros name ds IH msg. rewrite NewModuleFromJSON_eq.
    change (ToUint (Get (wire (Module_JSON (mkModule name ds))) "type"))
      with TypeModule.
    change (readSlice (wire (Module_JSON (mkModule name ds))) "definitions")
      with (OK (map MarshalGet (map (fun d => VMap (Definition_JSON d)) ds))).
    cbn [bind TypeModule Z.eqb Pos.eqb negb]. cbv zeta.
    pose proof (forEach_nodes_never_panic Definition_JSON NewDefinitionFromJSON
                  ds msg IH) as Hds.
    destruct (forEach NewDefinitionFromJSON _) as [xs | err | m]; cbn [bind];
      congruence.
  - (* mkDefinition *)
    intros i e IH msg. rewrite NewDefinitionFromJSON_eq.
    change (ToUint (Get (wire (Definition_JSON (mkDefinition i e))) "type"))
      with TypeDefinition.
    change (Get (wire (Definition_JSON (mkDefinition i e))) "id")
      with (wire (ID_JSON i)).
    change (Get (wire (Definition_JSON (mkDefinition i e))) "expression")
      with (wire (Expression_JSON e)).
    cbn [TypeDefinition Z.eqb Pos.eqb negb].
    pose proof (proj2 (proj2 (proj2 (proj2 (proj2
                  (leaves_never_panic (wire (ID_JSON i)) msg)))))) as Hid.
    destruct (NewIDFromJSON (wire (ID_JSON i))); cbn [bind]; try congruence.
    specialize (IH msg).
    destruct (NewExpressionFromJSON (wire (Expression_JSON e))); cbn [bind];
      congruence.
  - (* mkLambda *)
    intros ps e IH msg. rewrite NewLambdaFromJSON_eq.
    change (ToUint (Get (wire (Lambda_JSON (mkLambda ps e))) "type"))
      with TypeLambda.
    change (readSlice (wire (Lambda_JSON (mkLambda ps e))) "parameters")
      with (OK (map MarshalGet (map (fun p => VMap (ID_JSON p)) ps))).
    change (Get (wire (Lambda_JSON (mkLambda ps e))) "expression")
      with (wire (Expression_JSON e)).
    cbn [bind TypeLambda Z.eqb Pos.eqb negb].
    pose proof (forEach_IDs_never_panic
                  (map MarshalGet (map (fun p => VMap (ID_JSON p)) ps)) msg) as Hps.
    destruct (forEach NewIDFromJSON _); cbn [bind]; try congruence.
    specialize (IH msg).
    destruct (NewExpressionFromJSON (wire (Expression_JSON e))); cbn [bind];
      congruence.
  - (* mkCall *)
    intros i args IH msg. rewrite NewCallFromJSON_eq.
    change (ToUint (Get (wire (Call_JSON (mkCall i args))) "type")) with TypeCall.
    change (Get (wire (Call_JSON (mkCall i args))) "id") with (wire (ID_JSON i)).
    change (readSlice (wire (Call_JSON (mkCall i args))) "arguments")
      with (OK (map MarshalGet (map (fun a => VMap (Expression_JSON a)) args))).
    cbn [TypeCall Z.eqb Pos.eqb negb].
    pose proof (proj2 (proj2 (proj2 (proj2 (proj2
                  (leaves_never_panic (wire (ID_JSON i)) msg)))))) as Hid.
    destruct (NewIDFromJSON (wire (ID_JSON i))); cbn [bind]; try congruence.
    pose proof (forEach_nodes_never_panic Expression_JSON NewExpressionFromJSON
                  args msg IH) as Hargs.
    destruct (forEach NewExpressionFromJSON _) as [xs | err | m]; cbn [bind];
      congruence.
  - (* mkAnonymousCall *)
    intros l args IHl IH msg. rewrite NewAnonymousCallFromJSON_eq.
    change (ToUint (Get (wire (AnonymousCall_JSON (mkAnonymousCall l args))) "type"))
      with TypeAnonymousCall.
    change (Get (wire (AnonymousCall_JSON (mkAnonymousCall l args))) "lambda")
      with (wire (Lambda_JSON l)).
    change (readSlice (wire (AnonymousCall_JSON (mkAnonymousCall l args))) "arguments")
      with (OK (map MarshalGet (map (fun a => VMap (Expression_JSON a)) args))).
    cbn [TypeAnonymousCall Z.eqb Pos.eqb negb].
    specialize (IHl msg).
    destruct (NewLambdaFromJSON (wire (Lambda_JSON l))) as [l' | err | m];
      cbn [bind]; try congruence.
    pose proof (forEach_nodes_never_panic Expression_JSON NewExpressionFromJSON
                  args msg IH) as Hargs.
    destruct (forEach NewExpressionFromJSON _) as [xs | err | m]; cbn [bind];
      congruence.
Qed.

End NoPanic.

Section Properties.
Context {F : Floats} {D : Document}.

(** X4.  Every [JSON()] map starts with a ["type"] entry holding the
    [Type()] of its receiver, one of the tags 1..11, and the decoder
    reads that tag back from the marshalled map. *)
Theorem JSON_carries_Type (e : Expression) :
  (exists rest, Expression_JSON e = ("type", VInt (Type_ e)) :: rest) /\
  1 <= Type_ e <= 11 /\
  ToUint (Get (wire (Expression_JSON e)) "type") = Type_ e.
Proof.
  split; [apply Expression_JSON_head |].
  destruct e as [[] | [] | [] | [] | [] | [] | [] | [] | [] | [] | []];
    (split; [cbv; split; discriminate | reflexivity]).
Qed.

(** X5.  Two trees (of int32 values and of floats whose text parses
    back) have the same encoding exactly when they are equal up to the
    names of their modules. *)
Theorem encodings_agree_up_to_module_names (e1 e2 : Expression) :
  wellFormed e1 -> wellFormed e2 ->
  (Expression_JSON e1 = Expression_JSON e2 <->
   withoutModuleNames e1 = withoutModuleNames e2).
Proof.
  intros Hwf1 Hwf2. split.
  - apply Expression_JSON_injective; assumption.
  - intros Heq.
    rewrite <- (Expression_JSON_withoutModuleNames e1), Heq.
    apply Expression_JSON_withoutModuleNames.
Qed.


(** X7.  Every [Int32] in a tree that the dispatcher returns holds a
    value of the int32 range: the conversion [int32(value)] of
    [NewInt32FromJSON] never truncates. *)
Theorem decoded_Int32s_are_int32 (json : Any) (e : Expression) :
  NewExpressionFromJSON json = OK e -> int32sFit e.
Proof. apply decodeWithin_fits. Qed.

(** X8.  [NewModuleFromJSON] returns a module exactly when the tag
    reads 1 and the ["definitions"] sequence decodes element by
    element, in order, each by [NewDefinitionFromJSON]; the name is the
    text of the ["name"] field and there are as many definitions as
    elements.  [NewDefinitionFromJSON] returns a definition exactly
    when the tag reads 8 and its two parts decode. *)
Theorem Module_decodes_definition_by_definition (json : Any) :
  (forall name definitions,
     NewModuleFromJSON json = OK (mkModule name definitions) <->
     ToUint (Get json "type") = TypeModule /\
     name = ToString (Get json "name") /\
     exists jsonDefinitions,
       ToVal (Get json "definitions") = Some jsonDefinitions /\
       Forall2 (fun x d => NewDefinitionFromJSON x = OK d)
         jsonDefinitions definitions /\
       List.length definitions = List.length jsonDefinitions) /\
  (forall id e,
     NewDefinitionFromJSON json = OK (mkDefinition id e) <->
     ToUint (Get json "type") = TypeDefinition /\
     NewIDFromJSON (Get json "id") = OK id /\
     NewExpressionFromJSON (Get json "expression") = OK e).
Proof.
  split.
  - intros name ds. unfold NewModuleFromJSON, NewDefinitionFromJSON.
    rewrite Body_NewModuleFromJSON_OK. split.
    + intros (Htag & Hname & xs & Hxs & Hall).
      split; [exact Htag |]. split; [exact Hname |].
      exists xs. split; [exact Hxs |]. split; [exact Hall |].
      symmetry. eapply Forall2_length, Hall.
    + intros (Htag & Hname & xs & Hxs & Hall & _).
      split; [exact Htag |]. split; [exact Hname |].
      exists xs. split; [exact Hxs | exact Hall].
  - intros id e. apply Body_NewDefinitionFromJSON_OK.
Qed.

(** X9.  [NewLambdaFromJSON], [NewCallFromJSON] and
    [NewAnonymousCallFromJSON] return a node exactly when the tag reads
    9, 10 or 11 and every part decodes: the parameters one by one as
    identifiers, the arguments one by one as expressions, in order. *)
Theorem calls_and_lambdas_decode_part_by_part (json : Any) :
  (forall parameters e,
     NewLambdaFromJSON json = OK (mkLambda parameters e) <->
     ToUint (Get json "type") = TypeLambda /\
     (exists jsonParameters,
        ToVal (Get json "parameters") = Some jsonParameters /\
        Forall2 (fun x p => NewIDFromJSON x = OK p) jsonParameters parameters) /\
     NewExpressionFromJSON (Get json "expression") = OK e) /\
  (forall id arguments,
     NewCallFromJSON json = OK (mkCall id arguments) <->
     ToUint (Get json "type") = TypeCall /\
     NewIDFromJSON (Get json "id") = OK id /\
     exists jsonArguments,
       ToVal (Get json "arguments") = Some jsonArguments /\
       Forall2 (fun x a => NewExpressionFromJSON x = OK a) jsonArguments arguments) /\
  (forall lambda arguments,
     NewAnonymousCallFromJSON json = OK (mkAnonymousCall lambda arguments) <->
     ToUint (Get json "type") = TypeAnonymousCall /\
     NewLambdaFromJSON (Get json "lambda") = OK lambda /\
     exists jsonArguments,
       ToVal (Get json "arguments") = Some jsonArguments /\
       Forall2 (fun x a => NewExpressionFromJSON x = OK a) jsonArguments arguments).
Proof.
  split; [| split].
  - intros ps e. apply Body_NewLambdaFromJSON_OK.
  - intros id args. apply Body_NewCallFromJSON_OK.
  - intros l args. apply Body_NewAnonymousCallFromJSON_OK.
Qed.

(** X10.  The composite constructors return the error of the first
    part that fails, unchanged: a failing argument of a call after
    arguments that decode, a failing lambda of an anonymous call (whose
    arguments are then not read), a failing body of a lambda whose
    parameters decode. *)
Theorem first_failing_part_gives_the_error (json : Any) (err : error) :
  (forall id before x after decoded,
     ToUint (Get json "type") = TypeCall ->
     NewIDFromJSON (Get json "id") = OK id ->
     Get json "arguments" = arrayLazyAny (before ++ x :: after) ->
     forEach NewExpressionFromJSON before = OK decoded ->
     NewExpressionFromJSON x = Fail err ->
     NewCallFromJSON json = Fail err) /\
  (ToUint (Get json "type") = TypeAnonymousCall ->
   NewLambdaFromJSON (Get json "lambda") = Fail err ->
   NewAnonymousCallFromJSON json = Fail err) /\
  (forall lambda before x after decoded,
     ToUint (Get json "type") = TypeAnonymousCall ->
     NewLambdaFromJSON (Get json "lambda") = OK lambda ->
     Get json "arguments" = arrayLazyAny (before ++ x :: after) ->
     forEach NewExpressionFromJSON before = OK decoded ->
     NewExpressionFromJSON x = Fail err ->
     NewAnonymousCallFromJSON json = Fail err) /\
  (forall jsonParameters parameters,
     ToUint (Get json "type") = TypeLambda ->
     Get json "parameters" = arrayLazyAny jsonParameters ->
     forEach NewIDFromJSON jsonParameters = OK parameters ->
     NewExpressionFromJSON (Get json "expression") = Fail err ->
     NewLambdaFromJSON json = Fail err).
Proof.
  split; [| split; [| split]].
  - intros id before x after decoded Htag Hid Hargs Hbefore Hx.
    rewrite NewCallFromJSON_eq, (tag_match _ _ Htag), Hid. unfold readSlice.
    rewrite Hargs. cbn [ToVal bind].
    rewrite (forEach_stops _ _ _ _ _ _ Hbefore Hx). reflexivity.
  - intros Htag Hl.
    rewrite NewAnonymousCallFromJSON_eq, (tag_match _ _ Htag), Hl. reflexivity.
  - intros l before x after decoded Htag Hl Hargs Hbefore Hx.
    rewrite NewAnonymousCallFromJSON_eq, (tag_match _ _ Htag), Hl. unfold readSlice.
    rewrite Hargs. cbn [ToVal bind].
    rewrite (forEach_stops _ _ _ _ _ _ Hbefore Hx). reflexivity.
  - intros xs ps Htag Hxs Hps He.
    rewrite NewLambdaFromJSON_eq, (tag_match _ _ Htag). unfold readSlice.
    rewrite Hxs. cbn [ToVal bind]. rewrite Hps. cbn [bind]. rewrite He. reflexivity.
Qed.

(** X11.  The dispatcher reads its input through nine keys only
    ([readKeys]): two inputs on which [Get] agrees for these keys, such
    as an object and the same object with its fields reordered or with
    a field of another name added, get the same result. *)
Theorem decoder_reads_only_its_keys (json1 json2 : Any) :
  Forall (fun key => Get json1 key = Get json2 key) readKeys ->
  NewExpressionFromJSON json1 = NewExpressionFromJSON json2.
Proof.
  intros H. apply NewExpressionFromJSON_frame. apply Forall_forall. exact H.
Qed.

(** X12.  Each per-variant constructor inverts the [JSON] method of its
    variant, up to the names of modules, for int32 values, floats whose
    text parses back, and text that is valid UTF-8.  Text that is not
    valid UTF-8 comes back as the wire carries it, with U+FFFD for each
    byte that begins no valid encoding. *)
Theorem constructors_invert_JSON :
  (forall n, NewNilFromJSON (wire (Nil_JSON n)) = OK n) /\
  (forall b, NewBooleanFromJSON (wire (Boolean_JSON b)) = OK b) /\
  (forall v, inInt32 v ->
     NewInt32FromJSON (wire (Int32_JSON (mkInt32 v))) = OK (mkInt32 v)) /\
  (forall x, ValidString (FormatFloat x) = true ->
     ParseFloat (FormatFloat x) = (x, None) ->
     NewFloat64FromJSON (wire (Float64_JSON (mkFloat64 x))) = OK (mkFloat64 x)) /\
  (forall v, NewStringFromJSON (wire (String_JSON (mkString v))) =
               OK (mkString (writeReadString 0 v))) /\
  (forall v, ValidString v = true ->
     NewStringFromJSON (wire (String_JSON (mkString v))) = OK (mkString v)) /\
  (forall v, NewIDFromJSON (wire (ID_JSON (mkID v))) =
               OK (mkID (writeReadString 0 v))) /\
  (forall i, validTextID i -> NewIDFromJSON (wire (ID_JSON i)) = OK i) /\
  (forall m, wellFormedModule m -> validTextModule m ->
     NewModuleFromJSON (wire (Module_JSON m)) = OK (withoutModuleNamesModule m)) /\
  (forall d, wellFormedDefinition d -> validTextDefinition d ->
     NewDefinitionFromJSON (wire (Definition_JSON d)) =
       OK (withoutModuleNamesDefinition d)) /\
  (forall l, wellFormedLambda l -> validTextLambda l ->
     NewLambdaFromJSON (wire (Lambda_JSON l)) = OK (withoutModuleNamesLambda l)) /\
  (forall c, wellFormedCall c -> validTextCall c ->
     NewCallFromJSON (wire (Call_JSON c)) = OK (withoutModuleNamesCall c)) /\
  (forall c, wellFormedAnonymousCall c -> validTextAnonymousCall c ->
     NewAnonymousCallFromJSON (wire (AnonymousCall_JSON c)) =
       OK (withoutModuleNamesAnonymousCall c)).
Proof.
  assert (Hvia : forall e, wellFormed e -> validText e ->
            Body.dispatch NewExpressionFromJSON (wire (Expression_JSON e)) =
              OK (withoutModuleNames e)).
  { intros e Hwf Hvt. rewrite <- NewExpressionFromJSON_unfold.
    apply decode_encode; assumption. }
  repeat apply conj.
  - apply NewNilFromJSON_JSON.
  - apply NewBooleanFromJSON_JSON.
  - apply NewInt32FromJSON_JSON.
  - apply NewFloat64FromJSON_JSON.
  - apply NewStringFromJSON_wire.
  - apply NewStringFromJSON_JSON.
  - apply NewIDFromJSON_wire.
  - apply NewIDFromJSON_JSON.
  - intros m Hwf Hvt.
    exact (proj1 (dispatch_OK _ _ _) (Hvia (EModule m) Hwf Hvt)).
  - intros d Hwf Hvt.
    exact (proj1 (dispatch_OK _ _ _) (Hvia (EDefinition d) Hwf Hvt)).
  - intros l Hwf Hvt.
    exact (proj1 (dispatch_OK _ _ _) (Hvia (ELambda l) Hwf Hvt)).
  - intros c Hwf Hvt.
    exact (proj1 (dispatch_OK _ _ _) (Hvia (ECall c) Hwf Hvt)).
  - intros c Hwf Hvt.
    exact (proj1 (dispatch_OK _ _ _) (Hvia (EAnonymousCall c) Hwf Hvt)).
Qed.

(** X13.  [NewInt32FromJSON] returns a value exactly when the tag reads
    4 and the text that [ToString] reads from the ["value"] field is an
    optional sign and digits denoting an int32; the value is the number
    denoted.  So it takes ["+7"] and ["007"] as well as ["7"]. *)
Theorem NewInt32FromJSON_takes_exactly_int32_text (json : Any) (v : Z) :
  NewInt32FromJSON json = OK (mkInt32 v) <->
  ToUint (Get json "type") = TypeInt32 /\
  isDecimalText (ToString (Get json "value")) = true /\
  inInt32 (decimalValue (ToString (Get json "value"))) /\
  v = decimalValue (ToString (Get json "value")).
Proof. apply NewInt32FromJSON_OK. Qed.

(** X14.  Decoding what the encoder wrote never panics, for any tree:
    the dispatcher returns a tree or one of the decoder's errors. *)
Theorem decoding_an_encoding_returns (e : Expression) :
  (exists e', NewExpressionFromJSON (wire (Expression_JSON e)) = OK e') \/
  (exists err, NewExpressionFromJSON (wire (Expression_JSON e)) = Fail err /\
               decoderError err).
Proof.
  pose proof (decode_encode_never_panics e) as Hnp.
  destruct (NewExpressionFromJSON (wire (Expression_JSON e))) as [e' | err | msg]
    eqn:Hr.
  - left. exists e'. reflexivity.
  - right. exists err. split; [reflexivity |].
    eapply decodeWithin_errors, Hr.
  - exfalso. exact (Hnp msg eq_refl).
Qed.

End Properties.

(** *** Those properties at concrete inputs *)

Local Abbreviation decode := (@NewExpressionFromJSON exampleFloats exampleDocument).

(** X5: two modules that differ in their names have one encoding. *)
Lemma renamed_module_has_the_same_encoding :
  wellFormed moduleNamedA /\ wellFormed moduleNamedB /\
  withoutModuleNames moduleNamedA = withoutModuleNames moduleNamedB /\
  Expression_JSON moduleNamedA = Expression_JSON moduleNamedB.
Proof.
  assert (HA : wellFormed moduleNamedA) by (simpl; split; exact I).
  assert (HB : wellFormed moduleNamedB) by (simpl; split; exact I).
  assert (H : withoutModuleNames moduleNamedA = withoutModuleNames moduleNamedB)
    by reflexivity.
  split; [exact HA |]. split; [exact HB |]. split; [exact H |].
  apply (proj2 (encodings_agree_up_to_module_names moduleNamedA moduleNamedB HA HB) H).
Defined.


(** X7: a call with the argument [-42]. *)
Lemma decoded_call_holds_an_int32 :
  decode callInput = OK (ECall (mkCall (mkID "f") [EInt32 (mkInt32 (- 42))])) /\
  int32sFit (@ECall exampleFloats (mkCall (mkID "f") [EInt32 (mkInt32 (- 42))])).
Proof.
  assert (H : decode callInput =
              OK (ECall (mkCall (mkID "f") [EInt32 (mkInt32 (- 42))])))
    by reflexivity.
  split; [exact H |].
  apply (decoded_Int32s_are_int32 (D := exampleDocument) callInput _ H).
Defined.

(** X8: a module with one definition. *)
Lemma sound_module_decodes :
  @NewModuleFromJSON exampleFloats exampleDocument soundModule =
    OK (mkModule "m" [mkDefinition (mkID "y") (ENil mkNil)]) /\
  ToUint (Get soundModule "type") = TypeModule /\
  "m" = @ToString exampleDocument (Get soundModule "name").
Proof.
  assert (H : @NewModuleFromJSON exampleFloats exampleDocument soundModule =
              OK (mkModule "m" [mkDefinition (mkID "y") (ENil mkNil)]))
    by reflexivity.
  split; [exact H |].
  destruct (proj1 (proj1 (Module_decodes_definition_by_definition
                            (F := exampleFloats) (D := exampleDocument) soundModule)
                     "m" [mkDefinition (mkID "y") (ENil mkNil)]) H)
    as (Htag & Hname & _).
  split; [exact Htag | exact Hname].
Defined.

(** X9: a lambda with one parameter. *)
Lemma lambda_input_decodes :
  ToUint (Get lambdaInput "type") = TypeLambda /\
  @NewIDFromJSON exampleDocument idInput = OK (mkID "x") /\
  decode (Get lambdaInput "expression") = OK (ENil mkNil) /\
  @NewLambdaFromJSON exampleFloats exampleDocument lambdaInput =
    OK (mkLambda [mkID "x"] (ENil mkNil)).
Proof.
  split; [reflexivity |]. split; [reflexivity |]. split; [reflexivity |].
  apply (proj2 (proj1 (calls_and_lambdas_decode_part_by_part
                         (F := exampleFloats) (D := exampleDocument) lambdaInput)
                  [mkID "x"] (ENil mkNil))).
  split; [reflexivity |]. split; [| reflexivity].
  exists [idInput]. split; [reflexivity |].
  constructor; [reflexivity | constructor].
Defined.

(** X10: a call whose second argument is malformed and whose third has
    no tag. *)
Lemma call_returns_the_first_error :
  ToUint (Get callWithMalformedArgument "type") = TypeCall /\
  decode (objectLazyAny [("type", numberLazyAny "4"); ("value", stringAny "forty-two")]) =
    Fail (NumError "ParseInt" "forty-two" ErrSyntax) /\
  @NewCallFromJSON exampleFloats exampleDocument callWithMalformedArgument =
    Fail (NumError "ParseInt" "forty-two" ErrSyntax).
Proof.
  split; [reflexivity |]. split; [reflexivity |].
  apply (proj1 (first_failing_part_gives_the_error
                  (F := exampleFloats) (D := exampleDocument)
                  callWithMalformedArgument
                  (NumError "ParseInt" "forty-two" ErrSyntax))
           (mkID "f")
           [objectLazyAny [("type", numberLazyAny "2")]]
           (objectLazyAny [("type", numberLazyAny "4"); ("value", stringAny "forty-two")])
           [objectLazyAny [("type", numberLazyAny "0")]]
           [ENil mkNil]);
    reflexivity.
Defined.

(** X11: an identifier, and the same with its fields reordered and a
    ["comment"] added. *)
Lemma comment_field_is_ignored :
  Forall (fun key => Get idInputWithComment key = Get idInput key) readKeys /\
  decode idInputWithComment = decode idInput.
Proof.
  assert (H : Forall (fun key => Get idInputWithComment key = Get idInput key)
                readKeys).
  { unfold readKeys. repeat (constructor; [reflexivity |]). constructor. }
  split; [exact H |].
  apply (decoder_reads_only_its_keys (F := exampleFloats) (D := exampleDocument)
           idInputWithComment idInput H).
Defined.

(** X12: the [Lambda] fixture of the test. *)
Lemma lambda_fixture_round_trip :
  wellFormedLambda lambdaFixture /\
  validTextLambda lambdaFixture /\
  @NewLambdaFromJSON exampleFloats exampleDocument (wire (Lambda_JSON lambdaFixture)) =
    OK lambdaFixture /\
  @NewStringFromJSON exampleDocument (wire (String_JSON (mkString byteFF))) =
    OK (mkString (String "239" (String "191" (String "189" EmptyString)))).
Proof.
  assert (H : wellFormedLambda lambdaFixture) by exact I.
  assert (Hvt : validTextLambda lambdaFixture).
  { repeat apply conj; try exact I; reflexivity. }
  split; [exact H |]. split; [exact Hvt |]. split.
  - apply (proj1 (proj2 (proj2 (proj2 (proj2 (proj2 (proj2 (proj2 (proj2 (proj2
             (proj2 (constructors_invert_JSON
                (F := exampleFloats) (D := exampleDocument))))))))))))
             lambdaFixture H Hvt).
  - apply (proj1 (proj2 (proj2 (proj2 (proj2
             (constructors_invert_JSON
                (F := exampleFloats) (D := exampleDocument))))))
             byteFF).
Defined.

(** X13: the text "+7". *)
Lemma plus_seven_decodes :
  ToUint (Get plusSevenInput "type") = TypeInt32 /\
  isDecimalText "+7" = true /\
  inInt32 7 /\
  @NewInt32FromJSON exampleDocument plusSevenInput = OK (mkInt32 7).
Proof.
  assert (H : inInt32 7) by (unfold inInt32; rewrite pow_2_31; lia).
  split; [reflexivity |]. split; [reflexivity |]. split; [exact H |].
  apply (proj2 (NewInt32FromJSON_takes_exactly_int32_text
                  (D := exampleDocument) plusSevenInput 7)).
  split; [reflexivity |]. split; [reflexivity |]. split; [exact H | reflexivity].
Defined.

End coverage.
